(** * SerialSnooper: the relay loop, the simulated endpoint and the
      command-line front end of [Snooper.py], embedded in Rocq.

    The program forwards bytes between two serial ports.  Every function
    below is a transcription of the Python function whose name it bears;
    the operating system (readiness, device reads and writes, the clock)
    is an explicit input, and every call that reaches it is recorded in a
    trace of events. *)

From Stdlib Require Import String Bool ZArith Lia List.
From Stdlib Require Import Strings.Byte.
Import ListNotations.
Open Scope Z_scope.

(** ** Python values the program relies on *)

(** Exceptions that [except Exception] catches, by class. *)
Inductive exn : Type :=
| SerialException (msg : string)
| OSError (msg : string)
| ValueError (msg : string)
| TypeError (msg : string).

(** [b[n:]] on a sequence: a negative start counts from the end, and the
    start is clamped to [0 .. len b]. *)
Definition slice_from {A : Type} (n : Z) (b : list A) : list A :=
  let len := Z.of_nat (length b) in
  let start := if n <? 0 then Z.max (len + n) 0 else Z.min n len in
  skipn (Z.to_nat start) b.

(** The two serial ports of the relay. *)
Inductive Endpoint : Type := S0 | S1.

Definition endpoint_eqb (a b : Endpoint) : bool :=
  match a, b with
  | S0, S0 | S1, S1 => true
  | _, _ => false
  end.

Definition other (s : Endpoint) : Endpoint :=
  match s with S0 => S1 | S1 => S0 end.

(** [s in l] *)
Definition mem (s : Endpoint) (l : list Endpoint) : bool :=
  existsb (endpoint_eqb s) l.

(** ** Effects: a result with an event trace *)

(** How a computation stands:
    - [Ok a]: it returned [a];
    - [Raise e]: exception [e] is propagating;
    - [Exit code]: [SystemExit(code)] is propagating, which no
      [except Exception] catches;
    - [Running]: it is inside a [while True] (or a blocking call) whose
      scripted environment is used up; nothing after it has happened. *)
Inductive result (A : Type) : Type :=
| Ok (a : A)
| Raise (e : exn)
| Exit (code : Z)
| Running.
Arguments Ok {A} a.
Arguments Raise {A} e.
Arguments Exit {A} code.
Arguments Running {A}.

Section Effects.
Context {E : Type}.

(** A computation yields a result and the events it caused, in order. *)
Definition IO (A : Type) : Type := (result A * list E)%type.

Definition ret {A} (a : A) : IO A := (Ok a, []).

Definition bind {A B} (m : IO A) (f : A -> IO B) : IO B :=
  match m with
  | (Ok a, t) => (fst (f a), t ++ snd (f a))
  | (Raise e, t) => (Raise e, t)
  | (Exit c, t) => (Exit c, t)
  | (Running, t) => (Running, t)
  end.

Definition emit (ev : E) : IO unit := (Ok tt, [ev]).

Definition raise {A} (e : exn) : IO A := (Raise e, []).

Definition sys_exit {A} (code : Z) : IO A := (Exit code, []).

(** [for x in l: st = body x st] *)
Fixpoint for_each {A St} (l : list A) (body : A -> St -> IO St) (st : St) : IO St :=
  match l with
  | [] => ret st
  | x :: l' => bind (body x st) (for_each l' body)
  end.
(** If every event of [m] is [good], every event of [m] is [fine], and a
    value it returns satisfies [post]. *)
Definition meets {A} (good fine : E -> Prop) (post : A -> Prop) (m : IO A) : Prop :=
  Forall good (snd m) ->
  Forall fine (snd m) /\ forall a, fst m = Ok a -> post a.
End Effects.
Arguments IO : clear implicits.

Declare Scope io_scope.
Delimit Scope io_scope with io.
Notation "x <- m ;; k" := (bind m (fun x => k))
  (at level 100, m at next level, right associativity) : io_scope.
Notation "' p <- m ;; k" := (bind m (fun p => k))
  (at level 100, p pattern, m at next level, right associativity) : io_scope.
Open Scope io_scope.

(** ** The relay: class [Snooper] *)

Module Snooper.
Section Relay.
Context {byte : Type}.

(** Calls that reach the outside world, in program order. *)
Inductive event : Type :=
| Open (s : Endpoint)                           (* serial.Serial(port=...) *)
| Close (s : Endpoint)                          (* leaving a [with] block *)
| Select (rlist wlist : list Endpoint)          (* the lists handed to select *)
| Read (s : Endpoint) (c : list byte)           (* s.read(8192) returned c *)
| Wrote (s : Endpoint) (d : list byte) (n : Z)  (* s.write(d) returned n *)
| Failed (s : Endpoint) (e : exn).              (* the call on s raised e *)

Local Abbreviation IO := (IO event).

Definition fail {A} (s : Endpoint) (e : exn) : IO A :=
  _ <- emit (Failed s e) ;; raise e.

(** What the operating system answers during one pass of the loop. *)
Record Env : Type := {
  readable : Endpoint -> bool;                (* select: ready to read *)
  writable : Endpoint -> bool;                (* select: ready to write *)
  read : Endpoint -> Z -> exn + list byte;    (* s.read(size) *)
  write : Endpoint -> list byte -> exn + Z    (* s.write(data) *)
}.

(** The two locals [buffer0] and [buffer1] of [__doit]. *)
Record Buffers : Type := { buffer0 : list byte; buffer1 : list byte }.

Definition empty : Buffers := {| buffer0 := []; buffer1 := [] |}.

(** The buffer that is written to endpoint [s]. *)
Definition buf (s : Endpoint) (b : Buffers) : list byte :=
  match s with S0 => buffer0 b | S1 => buffer1 b end.

(** Lines 89-91: [wlist] before the select. *)
Definition write_interest (b : Buffers) : list Endpoint :=
  (if (length (buffer0 b) =? 0)%nat then [] else [S0]) ++
  (if (length (buffer1 b) =? 0)%nat then [] else [S1]).

(** Line 92: select returns the ready members of each list, in order. *)
Definition select (env : Env) (rlist wlist : list Endpoint)
  : IO (list Endpoint * list Endpoint) :=
  _ <- emit (Select rlist wlist) ;;
  ret (filter (readable env) rlist, filter (writable env) wlist).

Definition do_read (env : Env) (s : Endpoint) (size : Z) : IO (list byte) :=
  match read env s size with
  | inl e => fail s e
  | inr c => _ <- emit (Read s c) ;; ret c
  end.

Definition do_write (env : Env) (s : Endpoint) (d : list byte) : IO Z :=
  match write env s d with
  | inl e => fail s e
  | inr n => _ <- emit (Wrote s d n) ;; ret n
  end.

(** Lines 94-101: the body of [for s in rlist]. *)
Definition read_one (env : Env) (s : Endpoint) (b : Buffers) : IO Buffers :=
  c <- do_read env s 8192 ;;
  if (length c =? 0)%nat then ret b
  else if endpoint_eqb s S0
       then ret {| buffer0 := buffer0 b; buffer1 := buffer1 b ++ c |}
       else ret {| buffer0 := buffer0 b ++ c; buffer1 := buffer1 b |}.

(** Lines 103-108: the body of [for s in wlist]. *)
Definition write_one (env : Env) (s : Endpoint) (b : Buffers) : IO Buffers :=
  if endpoint_eqb s S0
  then n <- do_write env s (buffer0 b) ;;
       ret {| buffer0 := slice_from n (buffer0 b); buffer1 := buffer1 b |}
  else n <- do_write env s (buffer1 b) ;;
       ret {| buffer0 := buffer0 b; buffer1 := slice_from n (buffer1 b) |}.

(** Lines 93-101 and 102-109: the two [for] loops of a pass. *)
Definition read_phase (env : Env) (rlist : list Endpoint) (b : Buffers) : IO Buffers :=
  for_each rlist (read_one env) b.

Definition write_phase (env : Env) (wlist : list Endpoint) (b : Buffers) : IO Buffers :=
  for_each wlist (write_one env) b.

(** Lines 89-109: one pass of [while True]. *)
Definition iteration (env : Env) (b : Buffers) : IO Buffers :=
  let wlist := write_interest b in
  '(rlist, wlist) <- select env [S0; S1] wlist ;;
  b <- read_phase env rlist b ;;
  write_phase env wlist b.

(** The first [length envs] passes of the loop, one environment each. *)
Definition run (envs : list Env) (b : Buffers) : IO Buffers :=
  for_each envs iteration b.

(** Lines 82-109: [__doit].  The loop has no exit: once the scripted
    passes are over it is still running. *)
Definition doit (envs : list Env) : IO unit :=
  _ <- run envs empty ;; (Running, []).

(** What opening each port does, and what the loop then meets. *)
Record World : Type := {
  open_res : Endpoint -> option exn;      (* None: the port opened *)
  passes : list Env
}.

(** [with serial.Serial(...) as s: body]: the port is closed when the
    block is left, by return or by exception. *)
Definition with_serial {A} (w : World) (s : Endpoint) (body : IO A) : IO A :=
  _ <- emit (Open s) ;;
  match open_res w s with
  | Some e => fail s e
  | None =>
      match body with
      | (Running, t) => (Running, t)
      | (r, t) => (r, t ++ [Close s])
      end
  end.

(** Lines 73-80: [Snooper.runit]. *)
Definition runit (w : World) : IO unit :=
  with_serial w S0 (with_serial w S1 (doit (passes w))).

(** ** Bytes on the wire, read off a trace *)

(** Everything the reads on [s] returned, in order. *)
Fixpoint bytes_read (s : Endpoint) (tr : list event) : list byte :=
  match tr with
  | [] => []
  | Read s' c :: tr' =>
      (if endpoint_eqb s s' then c else []) ++ bytes_read s tr'
  | _ :: tr' => bytes_read s tr'
  end.

(** Everything [s] took: of the data handed to a write that returned [n],
    the first [n] bytes. *)
Fixpoint bytes_written (s : Endpoint) (tr : list event) : list byte :=
  match tr with
  | [] => []
  | Wrote s' d n :: tr' =>
      (if endpoint_eqb s s' then firstn (Z.to_nat n) d else []) ++ bytes_written s tr'
  | _ :: tr' => bytes_written s tr'
  end.

(** The data each write on [s] was handed. *)
Fixpoint offered (s : Endpoint) (tr : list event) : list (list byte) :=
  match tr with
  | [] => []
  | Wrote s' d _ :: tr' =>
      (if endpoint_eqb s s' then [d] else []) ++ offered s tr'
  | _ :: tr' => offered s tr'
  end.

(** The read-interest list of every select of a trace. *)
Fixpoint read_interests (tr : list event) : list (list Endpoint) :=
  match tr with
  | [] => []
  | Select rl _ :: tr' => rl :: read_interests tr'
  | _ :: tr' => read_interests tr'
  end.

Definition is_failure (ev : event) : bool :=
  match ev with Failed _ _ => true | _ => false end.

Definition is_close (ev : event) : bool :=
  match ev with Close _ => true | _ => false end.

(** Every byte a read on [s] returned is labelled [s] by [origin]. *)
Definition labelled (origin : byte -> Endpoint) (ev : event) : Prop :=
  match ev with
  | Read s c => Forall (fun x => origin x = s) c
  | _ => True
  end.

(** Every byte handed to a write on [t] is labelled with the other port. *)
Definition crossed (origin : byte -> Endpoint) (ev : event) : Prop :=
  match ev with
  | Wrote t d _ => Forall (fun x => origin x = other t) d
  | _ => True
  end.

(** Each buffer holds bytes of the other port only. *)
Definition crossed_buffers (origin : byte -> Endpoint) (b : Buffers) : Prop :=
  forall t, Forall (fun x => origin x = other t) (buf t b).

(** A select that asks about both ports for reading. *)
Definition polls_both (ev : event) : Prop :=
  match ev with
  | Select rl _ => rl = [S0; S1]
  | _ => True
  end.

(** A computation that raises does so on its first failing call, and
    then only closes ports; one that does not raise had no failing call. *)
Definition orderly {A} (m : IO A) : Prop :=
  match fst m with
  | Raise e =>
      exists pre s closes,
        snd m = pre ++ Failed s e :: closes /\
        Forall (fun ev => is_failure ev = false) pre /\
        Forall (fun ev => is_close ev = true) closes
  | _ => Forall (fun ev => is_failure ev = false) (snd m)
  end.

(** ** Environments that keep their side of the contract *)

(** No call raises, and a write reports a count between 0 and the length
    of the data it was handed. *)
Definition healthy (env : Env) : Prop :=
  (forall s size, exists c, read env s size = inr c) /\
  (forall s d, exists n, write env s d = inr n /\ 0 <= n <= Z.of_nat (length d)).

(** In this pass [s] is writable and takes at least one byte of whatever
    it is handed, and nothing arrives from the other side. *)
Definition serves (s : Endpoint) (env : Env) : Prop :=
  writable env s = true /\
  readable env (other s) = false /\
  (forall d, d <> [] -> exists n, write env s d = inr n /\ 1 <= n).

(** Over a stretch of trace, what was pending for [t] plus what came in
    from the other side is what went out to [t] plus what is pending now. *)
Definition conserves (b : Buffers) (tr : list event) (b' : Buffers) : Prop :=
  forall t, buf t b ++ bytes_read (other t) tr = bytes_written t tr ++ buf t b'.

End Relay.
Arguments event : clear implicits.
Arguments Env : clear implicits.
Arguments Buffers : clear implicits.
Arguments World : clear implicits.
End Snooper.

(** ** The thread wrapper: class [MyThread] *)

Module MyThread.

(** Lines 58-63: [MyThread.run] with error queue [err]: an exception of
    [runit] is put on the queue. *)
Definition run {E} (runit : IO E unit) (err : list exn) : list exn :=
  match runit with
  | (Raise e, _) => err ++ [e]
  | _ => err
  end.

End MyThread.

(** ** The simulated endpoint: class [Simulation] *)

Module Simulation.

(** The pty master the generator keeps. *)
Inductive Handle : Type := Master.

(** Clock readings are counted in ticks, of a unit as small as wanted
    (the samples take milliseconds); [delay] is counted in ticks too. *)
Inductive event : Type :=
| Wait (timeout : Z)                 (* select([s], [], [], timeout) *)
| Send (key : string) (stamp : Z)    (* os.write(s, message) *)
| Recv (c : list byte).              (* os.read(s, 1) returned c *)

(** What one pass of the loop meets. *)
Record Env : Type := {
  now_select : Z;        (* time.time() in the timeout, line 127 *)
  ready : bool;          (* select finds s readable *)
  now_msg : Z;           (* time.time() in the message, line 129 *)
  now_reset : Z;         (* time.time() on line 132 *)
  incoming : list byte   (* what os.read(s, 1) returns *)
}.

(** Line 127: select refuses a negative timeout. *)
Definition select (env : Env) (timeout : Z) : IO event (list Handle) :=
  _ <- emit (Wait timeout) ;;
  if timeout <? 0 then raise (ValueError "timeout must be non-negative")
  else ret (if ready env then [Master] else []).

(** Lines 127-135: one pass of [while True], on the local [tNext]. *)
Definition iteration (key : string) (dt : Z) (env : Env) (tNext : Z) : IO event Z :=
  rlist <- select env (tNext - now_select env) ;;
  match rlist with
  | [] =>
      _ <- emit (Send key (now_msg env)) ;;
      ret (now_reset env + dt)
  | _ :: _ =>
      _ <- emit (Recv (incoming env)) ;;
      ret tNext
  end.

Fixpoint run (key : string) (dt : Z) (envs : list Env) (tNext : Z) : IO event Z :=
  match envs with
  | [] => ret tNext
  | env :: envs' => t <- iteration key dt env tNext ;; run key dt envs' t
  end.

(** Lines 119-135: [Simulation.runit]; [start] is the clock reading of
    line 125. *)
Definition runit (key : string) (delay : Z) (start : Z) (envs : list Env) : IO event unit :=
  let dt := delay in
  let tNext := start + dt in
  _ <- run key dt envs tNext ;; (Running, []).

Definition is_send (ev : event) : bool :=
  match ev with Send _ _ => true | _ => false end.

(** Number of messages produced along a trace. *)
Definition productions (tr : list event) : nat := length (filter is_send tr).

End Simulation.

(** ** The command line and the start of the units: [__main__] *)

Module Main.

(** Python values an option can hold. *)
Inductive value : Type :=
| Int (z : Z)
| Str (s : string)
| PyNone.

(** [==] between values: a string never equals a number. *)
Definition py_eqb (a b : value) : bool :=
  match a, b with
  | Int x, Int y => x =? y
  | Str x, Str y => String.eqb x y
  | PyNone, PyNone => true
  | _, _ => false
  end.

(** [v in l] *)
Definition py_in (v : value) (l : list value) : bool := existsb (py_eqb v) l.

(** An [add_argument] that takes one value. *)
Record Option_ : Type := {
  type_ : option (string -> option value);   (* type=, a converter that may refuse *)
  choices : option (list value);             (* choices= *)
  default : value                            (* default= *)
}.

Inductive event : Type :=
| PrintHelp                            (* -h: the help is printed *)
| Usage (msg : string)                 (* parser.error prints msg *)
| Create (name : string)               (* a thread object is built *)
| Start (name : string).               (* thr.start() *)

(** [parser.error(msg)]: print and exit with status 2. *)
Definition parser_error {A} (msg : string) : IO event A :=
  _ <- emit (Usage msg) ;; sys_exit 2.

(** argparse on one option: an absent option takes its default as it is;
    a given string goes through [type] when there is one, and the outcome
    must be among [choices] when there are some.  The text of argparse's
    own messages is shortened to its kind. *)
Definition get_value (o : Option_) (arg : option string) : IO event value :=
  match arg with
  | None => ret (default o)
  | Some s =>
      v <- match type_ o with
           | None => ret (Str s)
           | Some conv =>
               match conv s with
               | Some v => ret v
               | None => parser_error "invalid value"
               end
           end ;;
      match choices o with
      | None => ret v
      | Some l => if py_in v l then ret v else parser_error "invalid choice"
      end
  end.

Section Main.
(** [int] on a string, [os.path.exists], the name of the pty that
    [Simulation(key, ...)] opens, and what opening a log file for
    appending does ([None]: it opens). *)
Variable int_of_string : string -> option Z.
Variable path_exists : string -> bool.
Variable ttyname : string -> string.
Variable open_log : string -> option exn.

Definition type_int (s : string) : option value := option_map Int (int_of_string s).
Definition type_str (s : string) : option value := Some (Str s).

(** Lines 142-154. *)
Definition opt_port : Option_ :=
  {| type_ := Some type_str; choices := None; default := PyNone |}.
Definition opt_baud : Option_ :=
  {| type_ := None;
     choices := Some [Int 1200; Int 2400; Int 4800; Int 9600; Int 19200; Int 115200];
     default := Int 9600 |}.
Definition opt_delay0 : Option_ :=
  {| type_ := Some type_int; choices := None; default := Int 11 |}.
Definition opt_delay1 : Option_ :=
  {| type_ := Some type_int; choices := None; default := Int 17 |}.

(** Lines 22-27: the options of [loggerArgs]. *)
Definition opt_logfile : Option_ :=
  {| type_ := Some type_str; choices := None; default := PyNone |}.
Definition opt_maxlogsize : Option_ :=
  {| type_ := Some type_int; choices := None; default := Int 10000000 |}.
Definition opt_backupcount : Option_ :=
  {| type_ := Some type_int; choices := None; default := Int 7 |}.

(** An option as it stands on the command line, with the word that
    follows it when it takes one.  [Help] is the [-h]/[--help] that
    [ArgumentParser()] adds. *)
Inductive Word : Type :=
| Help
| Port0 (s : string)
| Port1 (s : string)
| Baud (s : string)
| Test
| Delay0 (s : string)
| Delay1 (s : string)
| Logfile (s : string)
| Verbose
| Maxlogsize (s : string)
| Backupcount (s : string).

(** The command line: its options from left to right.  Words that are
    no option of the parser, and options short of their word, are not
    represented. *)
Definition CmdLine : Type := list Word.

(** The last word given for an option, if any. *)
Fixpoint last_of {A} (pick : Word -> option A) (cl : CmdLine) : option A :=
  match cl with
  | [] => None
  | w :: rest =>
      match last_of pick rest with
      | Some x => Some x
      | None => pick w
      end
  end.

Definition cl_port0 : CmdLine -> option string :=
  last_of (fun w => match w with Port0 s => Some s | _ => None end).
Definition cl_port1 : CmdLine -> option string :=
  last_of (fun w => match w with Port1 s => Some s | _ => None end).
Definition cl_baud : CmdLine -> option string :=
  last_of (fun w => match w with Baud s => Some s | _ => None end).
Definition cl_delay0 : CmdLine -> option string :=
  last_of (fun w => match w with Delay0 s => Some s | _ => None end).
Definition cl_delay1 : CmdLine -> option string :=
  last_of (fun w => match w with Delay1 s => Some s | _ => None end).
Definition cl_logfile : CmdLine -> option string :=
  last_of (fun w => match w with Logfile s => Some s | _ => None end).
Definition cl_test (cl : CmdLine) : bool :=
  existsb (fun w => match w with Test => true | _ => false end) cl.
Definition cl_help (cl : CmdLine) : bool :=
  existsb (fun w => match w with Help => true | _ => false end) cl.

(** The namespace [args]. *)
Record Args : Type := {
  port0 : value;
  port1 : value;
  baud : value;
  test : bool;
  delay0 : value;
  delay1 : value;
  logfile : value;
  verbose : bool;
  maxlogsize : value;
  backupcount : value
}.

(** The namespace before any option is met: the defaults. *)
Definition defaults : Args :=
  {| port0 := default opt_port; port1 := default opt_port;
     baud := default opt_baud; test := false;
     delay0 := default opt_delay0; delay1 := default opt_delay1;
     logfile := default opt_logfile; verbose := false;
     maxlogsize := default opt_maxlogsize;
     backupcount := default opt_backupcount |}.

(** argparse meets one option: [-h] prints the help and exits with
    status 0; a flag is stored; a word is converted and checked, then
    stored. *)
Definition take (w : Word) (a : Args) : IO event Args :=
  match w with
  | Help => _ <- emit PrintHelp ;; sys_exit 0
  | Port0 s =>
      v <- get_value opt_port (Some s) ;;
      ret {| port0 := v; port1 := port1 a; baud := baud a; test := test a;
             delay0 := delay0 a; delay1 := delay1 a; logfile := logfile a;
             verbose := verbose a; maxlogsize := maxlogsize a;
             backupcount := backupcount a |}
  | Port1 s =>
      v <- get_value opt_port (Some s) ;;
      ret {| port0 := port0 a; port1 := v; baud := baud a; test := test a;
             delay0 := delay0 a; delay1 := delay1 a; logfile := logfile a;
             verbose := verbose a; maxlogsize := maxlogsize a;
             backupcount := backupcount a |}
  | Baud s =>
      v <- get_value opt_baud (Some s) ;;
      ret {| port0 := port0 a; port1 := port1 a; baud := v; test := test a;
             delay0 := delay0 a; delay1 := delay1 a; logfile := logfile a;
             verbose := verbose a; maxlogsize := maxlogsize a;
             backupcount := backupcount a |}
  | Test =>
      ret {| port0 := port0 a; port1 := port1 a; baud := baud a; test := true;
             delay0 := delay0 a; delay1 := delay1 a; logfile := logfile a;
             verbose := verbose a; maxlogsize := maxlogsize a;
             backupcount := backupcount a |}
  | Delay0 s =>
      v <- get_value opt_delay0 (Some s) ;;
      ret {| port0 := port0 a; port1 := port1 a; baud := baud a; test := test a;
             delay0 := v; delay1 := delay1 a; logfile := logfile a;
             verbose := verbose a; maxlogsize := maxlogsize a;
             backupcount := backupcount a |}
  | Delay1 s =>
      v <- get_value opt_delay1 (Some s) ;;
      ret {| port0 := port0 a; port1 := port1 a; baud := baud a; test := test a;
             delay0 := delay0 a; delay1 := v; logfile := logfile a;
             verbose := verbose a; maxlogsize := maxlogsize a;
             backupcount := backupcount a |}
  | Logfile s =>
      v <- get_value opt_logfile (Some s) ;;
      ret {| port0 := port0 a; port1 := port1 a; baud := baud a; test := test a;
             delay0 := delay0 a; delay1 := delay1 a; logfile := v;
             verbose := verbose a; maxlogsize := maxlogsize a;
             backupcount := backupcount a |}
  | Verbose =>
      ret {| port0 := port0 a; port1 := port1 a; baud := baud a; test := test a;
             delay0 := delay0 a; delay1 := delay1 a; logfile := logfile a;
             verbose := true; maxlogsize := maxlogsize a;
             backupcount := backupcount a |}
  | Maxlogsize s =>
      v <- get_value opt_maxlogsize (Some s) ;;
      ret {| port0 := port0 a; port1 := port1 a; baud := baud a; test := test a;
             delay0 := delay0 a; delay1 := delay1 a; logfile := logfile a;
             verbose := verbose a; maxlogsize := v;
             backupcount := backupcount a |}
  | Backupcount s =>
      v <- get_value opt_backupcount (Some s) ;;
      ret {| port0 := port0 a; port1 := port1 a; baud := baud a; test := test a;
             delay0 := delay0 a; delay1 := delay1 a; logfile := logfile a;
             verbose := verbose a; maxlogsize := maxlogsize a;
             backupcount := v |}
  end.

(** Line 156: [parser.parse_args()]: the options are met from left to
    right, and the first that prints the help or is refused ends the
    program. *)
Definition parse_args (cl : CmdLine) : IO event Args :=
  for_each cl take defaults.

(** What [mkLogger] leaves on the logger: the handler and its level. *)
Inductive Handler : Type :=
| StreamHandler
| RotatingFileHandler (filename : string) (maxBytes backupCount : value).

Inductive Level : Type := DEBUG | INFO.

Record Logger : Type := {
  handler : Handler;
  handler_level : Level;
  handler_fmt : string
}.

(** Lines 29-49: [mkLogger].  [RotatingFileHandler] opens the file when
    it is built, and an [open] that fails raises there. *)
Definition mkLogger (args : Args) (fmt : option string) : IO event Logger :=
  ch <- match logfile args with
        | PyNone => ret StreamHandler
        | Str f =>
            match open_log f with
            | Some e => raise e
            | None => ret (RotatingFileHandler f (maxlogsize args) (backupcount args))
            end
        | Int _ => raise (TypeError "expected str, bytes or os.PathLike object")
        end ;;
  ret {| handler := ch;
         handler_level := if verbose args then DEBUG else INFO;
         handler_fmt := match fmt with
                        | None => "%(asctime)s: %(threadName)s:%(levelname)s - %(message)s"
                        | Some f => f
                        end |}.

(** A thread object of the list [threads]. *)
Inductive Thread : Type :=
| Simulation (key : string) (delay : value)
| Snooper (port0 port1 : value) (baud : value).

Definition name (t : Thread) : string :=
  match t with
  | Simulation key _ => String.append "Sim" key
  | Snooper _ _ _ => "Snooper"
  end.

Definition create (t : Thread) : IO event Thread :=
  _ <- emit (Create (name t)) ;; ret t.

(** [os.path.exists] on an option value. *)
Definition exists_ (v : value) : bool :=
  match v with Str p => path_exists p | _ => false end.

(** ["{}".format(v)] for the values a port can hold. *)
Definition format (v : value) : string :=
  match v with Str p => p | _ => "None" end.

(** Lines 162-181: validation, then the list [threads]. *)
Definition setup (args : Args) : IO event (list Thread) :=
  'ports <-
    (if negb (test args) then
       _ <- (if py_eqb (port0 args) PyNone
             then parser_error "--port0 is required unless --test is given"
             else ret tt) ;;
       _ <- (if py_eqb (port1 args) PyNone
             then parser_error "--port1 is required unless --test is given"
             else ret tt) ;;
       _ <- (if negb (exists_ (port0 args))
             then parser_error (String.append "--port0 " (String.append (format (port0 args)) " does not exist"))
             else ret tt) ;;
       _ <- (if negb (exists_ (port1 args))
             then parser_error (String.append "--port1 " (String.append (format (port1 args)) " does not exist"))
             else ret tt) ;;
       ret ([], port0 args, port1 args)
     else if negb (py_eqb (port0 args) PyNone) || negb (py_eqb (port1 args) PyNone)
     then parser_error "--port0 and --port1 can not be specified with --test"
     else
       t0 <- create (Simulation "0" (delay0 args)) ;;
       t1 <- create (Simulation "1" (delay1 args)) ;;
       ret ([t0; t1], Str (ttyname "0"), Str (ttyname "1"))) ;;
  let '(threads, p0, p1) := ports in
  t <- create (Snooper p0 p1 (baud args)) ;;
  ret (threads ++ [t]).

(** Lines 183-184. *)
Fixpoint start_all (threads : list Thread) : IO event unit :=
  match threads with
  | [] => ret tt
  | thr :: rest => _ <- emit (Start (name thr)) ;; start_all rest
  end.

(** Lines 186-187: [errQueue.get()] waits for the first error put on the
    queue, and [raise] throws it; [posted] is what the started threads
    put there, in order of arrival. *)
Definition reraise_first (posted : list exn) : IO event unit :=
  match posted with
  | [] => (Running, [])
  | e :: _ => raise e
  end.

(** Lines 140-187. *)
Definition main (cl : CmdLine) (posted : list exn) : IO event unit :=
  args <- parse_args cl ;;
  logger <- mkLogger args None ;;
  threads <- setup args ;;
  _ <- start_all threads ;;
  reraise_first posted.

End Main.

(** The exit status of the interpreter: that of [SystemExit], 1 for an
    exception that reaches the top, 0 at the end of the script. *)
Definition exit_status {A} (r : result A) : option Z :=
  match r with
  | Ok _ => Some 0
  | Raise _ => Some 1
  | Exit c => Some c
  | Running => None
  end.

End Main.

(** ** Sample environments *)

Module Sample.
Import Snooper.

(** Port 0 delivers "ABC", port 1 nothing; both ports are writable and a
    write takes at most two bytes. *)
Definition burst : Env Byte.byte :=
  {| readable := fun s => match s with S0 => true | S1 => false end;
     writable := fun _ => true;
     read := fun s _ => inr (match s with S0 => [x41; x42; x43] | S1 => [] end);
     write := fun _ d => inr (Z.min 2 (Z.of_nat (length d))) |}.

(** Port 0 is readable but has nothing to deliver; otherwise as above. *)
Definition idle : Env Byte.byte :=
  {| readable := fun s => match s with S0 => true | S1 => false end;
     writable := fun _ => true;
     read := fun _ _ => inr [];
     write := fun _ d => inr (Z.min 2 (Z.of_nat (length d))) |}.

(** The read on port 0 fails. *)
Definition broken : Env Byte.byte :=
  {| readable := fun _ => true;
     writable := fun _ => true;
     read := fun s _ => match s with
                        | S0 => inl (SerialException "device disconnected")
                        | S1 => inr []
                        end;
     write := fun _ d => inr (Z.of_nat (length d)) |}.

(** "ABC" is pending for port 1. *)
Definition pending : Buffers Byte.byte :=
  {| buffer0 := []; buffer1 := [x41; x42; x43] |}.

(** Both ports deliver one byte, each marked with the port it came from. *)
Definition marked : Env (Endpoint * Byte.byte) :=
  {| readable := fun _ => true;
     writable := fun _ => true;
     read := fun s _ => inr [(s, x41)];
     write := fun _ d => inr (Z.of_nat (length d)) |}.

(** The generator with delay 1000 started at 0: the deadline is 1000.
    A byte is waiting when the select is entered at 998. *)
Definition busy : Simulation.Env :=
  {| Simulation.now_select := 998; Simulation.ready := true;
     Simulation.now_msg := 999; Simulation.now_reset := 999;
     Simulation.incoming := [x41] |}.

(** Another byte is waiting when the next select is entered at 999. *)
Definition busy_still : Simulation.Env :=
  {| Simulation.now_select := 999; Simulation.ready := true;
     Simulation.now_msg := 1000; Simulation.now_reset := 1000;
     Simulation.incoming := [x42] |}.

(** Nothing arrives: the select is entered at 1 and returns at the
    deadline 1000; the write is over at 1002. *)
Definition calm : Simulation.Env :=
  {| Simulation.now_select := 1; Simulation.ready := false;
     Simulation.now_msg := 1000; Simulation.now_reset := 1002;
     Simulation.incoming := [] |}.

(** The clock has passed the deadline 1000 and a byte is still waiting. *)
Definition late : Simulation.Env :=
  {| Simulation.now_select := 1001; Simulation.ready := true;
     Simulation.now_msg := 1002; Simulation.now_reset := 1002;
     Simulation.incoming := [x43] |}.


(** [--test --port0 /dev/ttyUSB0 --help] *)
Definition test_port_help : Main.CmdLine :=
  [Main.Test; Main.Port0 "/dev/ttyUSB0"; Main.Help].


(** A file system in which no log file can be opened. *)
Definition no_log (f : string) : option exn :=
  Some (OSError "No such file or directory").

(** A file system in which every log file opens. *)
Definition any_log (f : string) : option exn := None.

(** [--port0 /dev/ttyUSB0 --port1 /dev/ttyUSB1 --baud 9600] *)
Definition with_baud : Main.CmdLine :=
  [Main.Port0 "/dev/ttyUSB0"; Main.Port1 "/dev/ttyUSB1"; Main.Baud "9600"].

End Sample.

(** ** Further vocabulary *)

(** A read never returns more than the size it was asked for. *)
Definition honours_size {byte : Type} (env : Snooper.Env byte) : Prop :=
  forall s size c,
    0 <= size ->
    Snooper.read env s size = inr c -> Z.of_nat (length c) <= size.

(** The ports that [Snooper.runit] gets open, in the order it opens them. *)
Definition opened {byte : Type} (w : Snooper.World byte) : list Endpoint :=
  match Snooper.open_res w S0 with
  | Some _ => []
  | None => S0 :: match Snooper.open_res w S1 with
                  | Some _ => []
                  | None => [S1]
                  end
  end.








(** The error queue once the threads with these outcomes have finished,
    in this order. *)
Definition posted_by {E : Type} (outcomes : list (IO E unit)) : list exn :=
  fold_left (fun err r => MyThread.run r err) outcomes [].

(** The exception of the first outcome that is one. *)
Fixpoint first_error {E : Type} (outcomes : list (IO E unit)) : option exn :=
  match outcomes with
  | [] => None
  | (Raise e, _) :: _ => Some e
  | _ :: rest => first_error rest
  end.

Definition is_simulation (t : Main.Thread) : bool :=
  match t with Main.Simulation _ _ => true | Main.Snooper _ _ _ => false end.

Module Scenario.
Import Snooper.

(** Port 0 delivers "ABC" in every pass; no port is ever writable. *)
Definition stuck : Env Byte.byte :=
  {| readable := fun s => match s with S0 => true | S1 => false end;
     writable := fun _ => false;
     read := fun s size =>
               inr (firstn (Z.to_nat size)
                           (match s with S0 => [x41; x42; x43] | S1 => [] end));
     write := fun _ d => inr (Z.min 2 (Z.of_nat (length d))) |}.

(** Both ports deliver, as much as asked for at most, and both take all
    they are handed. *)
Definition duplex : Env Byte.byte :=
  {| readable := fun _ => true;
     writable := fun _ => true;
     read := fun s size =>
               inr (firstn (Z.to_nat size)
                           (match s with S0 => [x41; x42] | S1 => [x58] end));
     write := fun _ d => inr (Z.of_nat (length d)) |}.

(** Port 0 opens, port 1 does not. *)
Definition half_open : World Byte.byte :=
  {| open_res := fun s => match s with
                          | S0 => None
                          | S1 => Some (SerialException "no such device")
                          end;
     passes := [] |}.

(** Both ports open; the second pass meets a failing read. *)
Definition breaks : World Byte.byte :=
  {| open_res := fun _ => None; passes := [Sample.burst; Sample.broken] |}.

(** Both ports open and the two scripted passes go well. *)
Definition steady : World Byte.byte :=
  {| open_res := fun _ => None; passes := [Sample.burst; Sample.idle] |}.



(** [--port0 /dev/ttyUSB0 --port1 /dev/ttyUSB1] *)
Definition two_ports : Main.CmdLine :=
  [Main.Port0 "/dev/ttyUSB0"; Main.Port1 "/dev/ttyUSB1"].

(** [--test --delay0 3] *)
Definition test_only : Main.CmdLine :=
  [Main.Test; Main.Delay0 "3"].

(** [--port0 /dev/ttyUSB0 --port1 /dev/ttyUSB1 --logfile /nowhere/relay.log] *)
Definition two_ports_logfile : Main.CmdLine :=
  [Main.Port0 "/dev/ttyUSB0"; Main.Port1 "/dev/ttyUSB1";
   Main.Logfile "/nowhere/relay.log"].

(** A decimal reader good enough for the samples: it knows "3". *)
Definition reads_three (s : string) : option Z :=
  if String.eqb s "3" then Some 3 else None.

(** The namespace of [two_ports]. *)
Definition two_ports_args : Main.Args :=
  {| Main.port0 := Main.Str "/dev/ttyUSB0"; Main.port1 := Main.Str "/dev/ttyUSB1";
     Main.baud := Main.Int 9600; Main.test := false;
     Main.delay0 := Main.Int 11; Main.delay1 := Main.Int 17;
     Main.logfile := Main.PyNone; Main.verbose := false;
     Main.maxlogsize := Main.Int 10000000; Main.backupcount := Main.Int 7 |}.

(** The namespace of [two_ports_logfile]. *)
Definition two_ports_logfile_args : Main.Args :=
  {| Main.port0 := Main.Str "/dev/ttyUSB0"; Main.port1 := Main.Str "/dev/ttyUSB1";
     Main.baud := Main.Int 9600; Main.test := false;
     Main.delay0 := Main.Int 11; Main.delay1 := Main.Int 17;
     Main.logfile := Main.Str "/nowhere/relay.log"; Main.verbose := false;
     Main.maxlogsize := Main.Int 10000000; Main.backupcount := Main.Int 7 |}.

(** The namespace of [test_only] under [reads_three]. *)
Definition test_only_args : Main.Args :=
  {| Main.port0 := Main.PyNone; Main.port1 := Main.PyNone;
     Main.baud := Main.Int 9600; Main.test := true;
     Main.delay0 := Main.Int 3; Main.delay1 := Main.Int 17;
     Main.logfile := Main.PyNone; Main.verbose := false;
     Main.maxlogsize := Main.Int 10000000; Main.backupcount := Main.Int 7 |}.

(** "XY" is pending for port 0. *)
Definition pending0 : Buffers Byte.byte :=
  {| buffer0 := [x58; x59]; buffer1 := [] |}.

End Scenario.

(** * Properties *)

(** ** Slices and the effect monad *)

Lemma slice_from_nonneg {A : Type} (n : Z) (b : list A) :
  0 <= n -> slice_from n b = skipn (Z.to_nat n) b.
Proof.
  intros Hn. unfold slice_from.
  destruct (Z.ltb_spec n 0) as [Hlt | _]; [lia |].
  destruct (Z.le_gt_cases n (Z.of_nat (length b))) as [Hle | Hgt].
  - rewrite Z.min_l by exact Hle. reflexivity.
  - rewrite Z.min_r by lia. rewrite Nat2Z.id.
    rewrite skipn_all. symmetry. apply skipn_all2. lia.
Qed.

Lemma slice_from_split {A : Type} (n : Z) (b : list A) :
  0 <= n -> firstn (Z.to_nat n) b ++ slice_from n b = b.
Proof.
  intros Hn. rewrite slice_from_nonneg by exact Hn. apply firstn_skipn.
Qed.

Lemma slice_from_length {A : Type} (n : Z) (b : list A) :
  0 <= n -> length (slice_from n b) = (length b - Z.to_nat n)%nat.
Proof.
  intros Hn. rewrite slice_from_nonneg by exact Hn. apply length_skipn.
Qed.

Lemma bind_ok {E A B} (m : IO E A) (f : A -> IO E B) a t r t' :
  m = (Ok a, t) -> f a = (r, t') -> bind m f = (r, t ++ t').
Proof. intros -> Hf. simpl. rewrite Hf. reflexivity. Qed.

Lemma bind_inv_ok {E A B} (m : IO E A) (f : A -> IO E B) b tr :
  bind m f = (Ok b, tr) ->
  exists a t t', m = (Ok a, t) /\ f a = (Ok b, t') /\ tr = t ++ t'.
Proof.
  destruct m as [[a | e | c |] t]; simpl; intros H; try discriminate.
  destruct (f a) as [r t'] eqn:Hf. simpl in H. inversion H; subst.
  exists a, t, t'. auto.
Qed.

Section EffectFacts.
Context {E : Type}.

Lemma meets_ret {A} (good fine : E -> Prop) (post : A -> Prop) a :
  post a -> meets good fine post (ret a).
Proof. intros H _. split; [constructor | simpl; congruence]. Qed.

Lemma meets_bind {A B} (good fine : E -> Prop) (P : A -> Prop) (Q : B -> Prop)
      (m : IO E A) (f : A -> IO E B) :
  meets good fine P m ->
  (forall a, P a -> meets good fine Q (f a)) ->
  meets good fine Q (bind m f).
Proof.
  intros Hm Hf. destruct m as [[a | e | c |] t]; unfold meets in *; simpl in *.
  - intros Hg. apply Forall_app in Hg. destruct Hg as [Hg1 Hg2].
    destruct (Hm Hg1) as [Hf1 Hp]. destruct (Hf a (Hp a eq_refl) Hg2) as [Hf2 Hq].
    split; [apply Forall_app; auto | exact Hq].
  - intros Hg. split; [apply Hm, Hg | congruence].
  - intros Hg. split; [apply Hm, Hg | congruence].
  - intros Hg. split; [apply Hm, Hg | congruence].
Qed.

Lemma meets_for_each {A St} (good fine : E -> Prop) (I : St -> Prop)
      (body : A -> St -> IO E St) :
  (forall x st, I st -> meets good fine I (body x st)) ->
  forall l st, I st -> meets good fine I (for_each l body st).
Proof.
  intros Hbody. induction l as [| x l IH]; intros st Hst; simpl.
  - now apply meets_ret.
  - eapply meets_bind; [apply Hbody, Hst | exact IH].
Qed.

End EffectFacts.

(** ** The relay loop *)

Section RelayFacts.
Import Snooper.
Context {byte : Type}.
Local Abbreviation event := (Snooper.event byte).
Local Abbreviation Env := (Snooper.Env byte).
Local Abbreviation Buffers := (Snooper.Buffers byte).

Implicit Types (s t : Endpoint) (b : Buffers) (env : Env) (tr : list event).

Lemma endpoint_eqb_eq s t : endpoint_eqb s t = true <-> s = t.
Proof. destruct s, t; simpl; split; congruence. Qed.

Lemma endpoint_eqb_refl s : endpoint_eqb s s = true.
Proof. destruct s; reflexivity. Qed.

Lemma endpoint_eqb_false s t : endpoint_eqb t s = false -> t = other s.
Proof. destruct s, t; simpl; congruence. Qed.

Lemma other_involutive s : other (other s) = s.
Proof. destruct s; reflexivity. Qed.

Lemma bytes_read_app s tr1 tr2 :
  bytes_read s (tr1 ++ tr2) = bytes_read s tr1 ++ bytes_read s tr2.
Proof.
  induction tr1 as [| ev tr1 IH]; simpl; [reflexivity |].
  destruct ev; try exact IH. rewrite IH. apply app_assoc.
Qed.

Lemma bytes_written_app s tr1 tr2 :
  bytes_written s (tr1 ++ tr2) = bytes_written s tr1 ++ bytes_written s tr2.
Proof.
  induction tr1 as [| ev tr1 IH]; simpl; [reflexivity |].
  destruct ev; try exact IH. rewrite IH. apply app_assoc.
Qed.

Lemma offered_app s tr1 tr2 :
  offered s (tr1 ++ tr2) = offered s tr1 ++ offered s tr2.
Proof.
  induction tr1 as [| ev tr1 IH]; simpl; [reflexivity |].
  destruct ev; try exact IH. rewrite IH. apply app_assoc.
Qed.

Lemma read_interests_app tr1 tr2 :
  read_interests (tr1 ++ tr2) = read_interests tr1 ++ read_interests tr2.
Proof.
  induction tr1 as [| ev tr1 IH]; simpl; [reflexivity |].
  destruct ev; simpl; rewrite IH; reflexivity.
Qed.

(** *** One read, one write *)

Lemma read_one_ok env s b c :
  read env s 8192 = inr c ->
  exists b', read_one env s b = (Ok b', [Read s c]) /\
             buf s b' = buf s b /\
             buf (other s) b' = buf (other s) b ++ c.
Proof.
  intros Hr. unfold read_one, do_read. rewrite Hr. simpl.
  destruct c as [| x c]; simpl.
  - exists b. rewrite app_nil_r. auto.
  - destruct s; simpl; eexists; (split; [reflexivity | simpl; auto]).
Qed.

Lemma read_one_raise env s b e :
  read env s 8192 = inl e ->
  read_one env s b = (Raise e, [Failed s e]).
Proof. intros Hr. unfold read_one, do_read. rewrite Hr. reflexivity. Qed.

Lemma write_one_ok env s b n :
  write env s (buf s b) = inr n ->
  exists b', write_one env s b = (Ok b', [Wrote s (buf s b) n]) /\
             buf s b' = slice_from n (buf s b) /\
             buf (other s) b' = buf (other s) b.
Proof.
  intros Hw. unfold write_one, do_write.
  destruct s; simpl in *; rewrite Hw; simpl; eexists; (split; [reflexivity | simpl; auto]).
Qed.

Lemma write_one_raise env s b e :
  write env s (buf s b) = inl e ->
  write_one env s b = (Raise e, [Failed s e]).
Proof.
  intros Hw. unfold write_one, do_write.
  destruct s; simpl in *; rewrite Hw; reflexivity.
Qed.

(** *** The read phase *)

Lemma read_phase_ok env rl :
  (forall s size, exists c, read env s size = inr c) ->
  forall b, exists b' tr,
    read_phase env rl b = (Ok b', tr) /\
    (forall t, buf t b' = buf t b ++ bytes_read (other t) tr) /\
    (forall t, bytes_written t tr = []) /\
    (forall t, offered t tr = []) /\
    (forall t, ~ In t rl -> bytes_read t tr = []) /\
    read_interests tr = [].
Proof.
  intros Hr. induction rl as [| s rl IH]; intros b.
  - exists b, []. simpl. repeat split; auto. intros t. now rewrite app_nil_r.
  - destruct (Hr s 8192) as [c Hc].
    destruct (read_one_ok env s b c Hc) as (b1 & H1 & Hs & Ho).
    destruct (IH b1) as (b2 & tr & H2 & Hb & Hw & Hof & Hn & Hi).
    exists b2, ([Read s c] ++ tr). split; [| repeat split].
    + unfold read_phase in *. simpl for_each. eapply bind_ok; eauto.
    + intros t. rewrite Hb. simpl.
      destruct (endpoint_eqb (other t) s) eqn:E.
      * apply endpoint_eqb_eq in E. subst s. rewrite other_involutive in Ho.
        rewrite Ho. now rewrite app_assoc.
      * assert (t = s) as -> by (destruct t, s; simpl in E; congruence).
        now rewrite Hs.
    + intros t. simpl. apply Hw.
    + intros t. simpl. apply Hof.
    + intros t Ht. simpl. simpl in Ht.
      destruct (endpoint_eqb t s) eqn:E.
      * apply endpoint_eqb_eq in E. exfalso. apply Ht. left. congruence.
      * simpl. apply Hn. intros Hin. apply Ht. right. exact Hin.
    + simpl. exact Hi.
Qed.

(** *** The write phase *)

Lemma mem_In s l : mem s l = true <-> In s l.
Proof.
  unfold mem. rewrite existsb_exists. split.
  - intros (x & Hx & E). apply endpoint_eqb_eq in E. now subst.
  - intros H. exists s. split; [exact H | apply endpoint_eqb_refl].
Qed.

Lemma mem_false s l : mem s l = false <-> ~ In s l.
Proof.
  rewrite <- mem_In. destruct (mem s l); split; congruence.
Qed.

Lemma write_phase_ok env wl :
  (forall s d, exists n, write env s d = inr n /\ 0 <= n <= Z.of_nat (length d)) ->
  NoDup wl ->
  forall b, exists b' tr,
    write_phase env wl b = (Ok b', tr) /\
    (forall t, buf t b = bytes_written t tr ++ buf t b') /\
    (forall t, bytes_read t tr = []) /\
    (forall t, offered t tr = if mem t wl then [buf t b] else []) /\
    (forall t, mem t wl = false -> buf t b' = buf t b) /\
    (forall t, mem t wl = true ->
       exists n, write env t (buf t b) = inr n /\ buf t b' = slice_from n (buf t b)) /\
    read_interests tr = [].
Proof.
  intros Hw. induction wl as [| s wl IH]; intros Hnd b.
  - exists b, []. simpl. repeat split; auto. intros t H; discriminate.
  - inversion Hnd as [| ? ? Hnotin Hnd']; subst.
    destruct (Hw s (buf s b)) as (n & Hn & Hrange).
    destruct (write_one_ok env s b n Hn) as (b1 & H1 & Hs & Ho).
    destruct (IH Hnd' b1) as (b2 & tr & H2 & Hb & Hrd & Hof & Hkeep & Hcut & Hi).
    assert (Hms : mem s wl = false) by (now apply mem_false).
    exists b2, ([Wrote s (buf s b) n] ++ tr). split; [| repeat split].
    + unfold write_phase in *. simpl for_each. eapply bind_ok; eauto.
    + intros t. simpl. destruct (endpoint_eqb t s) eqn:E.
      * apply endpoint_eqb_eq in E. subst t.
        rewrite <- app_assoc, <- Hb, Hs.
        symmetry. apply slice_from_split. lia.
      * apply endpoint_eqb_false in E. subst t.
        simpl. rewrite <- Hb. now rewrite Ho.
    + intros t. simpl. apply Hrd.
    + intros t. simpl. rewrite Hof. destruct (endpoint_eqb t s) eqn:E.
      * apply endpoint_eqb_eq in E. subst t. rewrite Hms. reflexivity.
      * apply endpoint_eqb_false in E. subst t.
        simpl. rewrite Ho. reflexivity.
    + intros t. simpl. destruct (endpoint_eqb t s) eqn:E; simpl; [discriminate |].
      intros Hm. rewrite (Hkeep t Hm).
      apply endpoint_eqb_false in E. subst t.
      exact Ho.
    + intros t. simpl. destruct (endpoint_eqb t s) eqn:E; simpl.
      * intros _. apply endpoint_eqb_eq in E. subst t.
        exists n. split; [exact Hn |]. rewrite (Hkeep s Hms). exact Hs.
      * intros Hm. apply endpoint_eqb_false in E. subst t.
        destruct (Hcut _ Hm) as (k & Hk & Hbk). rewrite Ho in Hk, Hbk.
        exists k. auto.
    + simpl. exact Hi.
Qed.

(** *** One pass *)

Lemma write_interest_NoDup b : NoDup (write_interest b).
Proof.
  unfold write_interest.
  destruct (length (buffer0 b) =? 0)%nat, (length (buffer1 b) =? 0)%nat; simpl;
    repeat constructor; simpl; intuition discriminate.
Qed.

Lemma write_interest_mem t b :
  mem t (write_interest b) = negb (length (buf t b) =? 0)%nat.
Proof.
  unfold write_interest.
  destruct t; simpl;
    destruct (length (buffer0 b) =? 0)%nat, (length (buffer1 b) =? 0)%nat; reflexivity.
Qed.

Lemma mem_filter (f : Endpoint -> bool) t l :
  mem t (filter f l) = f t && mem t l.
Proof.
  induction l as [| x l IH]; simpl; [now rewrite andb_false_r |].
  destruct (f x) eqn:Fx; simpl; rewrite IH;
    destruct (endpoint_eqb t x) eqn:E; simpl; try reflexivity.
  - apply endpoint_eqb_eq in E. subst x. rewrite Fx. reflexivity.
  - apply endpoint_eqb_eq in E. subst x. rewrite Fx. reflexivity.
Qed.

Lemma iteration_unfold env b :
  iteration env b =
  bind (emit (Select [S0; S1] (write_interest b)))
       (fun _ => bind (read_phase env (filter (readable env) [S0; S1]) b)
                      (write_phase env (filter (writable env) (write_interest b)))).
Proof.
  unfold iteration, select. simpl.
  destruct (read_phase env _ b) as [[b1 | e | c |] t1]; reflexivity.
Qed.

Lemma iteration_ok env b :
  healthy env ->
  exists b' tr,
    iteration env b = (Ok b', Select [S0; S1] (write_interest b) :: tr) /\
    read_interests tr = [] /\
    conserves b tr b' /\
    (forall t, readable env t = false -> bytes_read t tr = []) /\
    (forall t, offered t tr =
               if writable env t && mem t (write_interest b)
               then [buf t b ++ bytes_read (other t) tr] else []) /\
    (forall t, writable env t && mem t (write_interest b) = false ->
               buf t b' = buf t b ++ bytes_read (other t) tr) /\
    (forall t, writable env t && mem t (write_interest b) = true ->
               exists n, write env t (buf t b ++ bytes_read (other t) tr) = inr n /\
                         buf t b' = slice_from n (buf t b ++ bytes_read (other t) tr)).
Proof.
  intros [Hr Hw]. rewrite iteration_unfold.
  destruct (read_phase_ok env (filter (readable env) [S0; S1]) Hr b)
    as (b1 & tr1 & H1 & Hb1 & Hw1 & Hof1 & Hq1 & Hi1).
  assert (Hnd : NoDup (filter (writable env) (write_interest b)))
    by (apply NoDup_filter, write_interest_NoDup).
  destruct (write_phase_ok env _ Hw Hnd b1)
    as (b2 & tr2 & H2 & Hb2 & Hr2 & Hof2 & Hkeep & Hcut & Hi2).
  assert (Hrd : forall t, bytes_read t (tr1 ++ tr2) = bytes_read t tr1)
    by (intros t; rewrite bytes_read_app, Hr2; apply app_nil_r).
  exists b2, (tr1 ++ tr2). split; [| repeat split].
  - change (Select [S0; S1] (write_interest b) :: tr1 ++ tr2)
      with ([Select [S0; S1] (write_interest b)] ++ (tr1 ++ tr2)).
    eapply bind_ok; [reflexivity |]. eapply bind_ok; eauto.
  - rewrite read_interests_app, Hi1, Hi2. reflexivity.
  - intros t. rewrite Hrd, bytes_written_app, Hw1. simpl.
    rewrite <- Hb2. symmetry. apply Hb1.
  - intros t Ht. rewrite Hrd. apply Hq1. rewrite filter_In. intros [_ H].
    congruence.
  - intros t. rewrite offered_app, Hof1, Hof2, mem_filter, Hrd, Hb1. reflexivity.
  - intros t Ht. rewrite Hrd, <- Hb1. apply Hkeep. now rewrite mem_filter.
  - intros t Ht. rewrite Hrd, <- Hb1. apply Hcut. now rewrite mem_filter.
Qed.

(** *** Any number of passes *)

Lemma conserves_refl b : conserves b [] b.
Proof. intros t. simpl. apply app_nil_r. Qed.

Lemma conserves_trans b1 tr1 b2 tr2 b3 :
  conserves b1 tr1 b2 -> conserves b2 tr2 b3 -> conserves b1 (tr1 ++ tr2) b3.
Proof.
  intros H12 H23 t.
  rewrite bytes_read_app, bytes_written_app, app_assoc, H12, <- !app_assoc, H23.
  reflexivity.
Qed.

Lemma conserves_select b rl wl tr b' :
  conserves b tr b' -> conserves b (Select rl wl :: tr) b'.
Proof. intros H t. simpl. apply H. Qed.

Lemma run_cons env envs b :
  run (env :: envs) b = bind (iteration env b) (run envs).
Proof. reflexivity. Qed.

Lemma run_ok envs :
  Forall healthy envs ->
  forall b, exists b' tr,
    run envs b = (Ok b', tr) /\ conserves b tr b' /\
    read_interests tr = repeat [S0; S1] (length envs).
Proof.
  induction 1 as [| env envs Henv _ IH]; intros b.
  - exists b, []. simpl. repeat split. apply conserves_refl.
  - destruct (iteration_ok env b Henv) as (b1 & tr1 & H1 & Hi1 & Hc1 & _).
    destruct (IH b1) as (b2 & tr2 & H2 & Hc2 & Hi2).
    exists b2, ((Select [S0; S1] (write_interest b) :: tr1) ++ tr2).
    split; [| split].
    + rewrite run_cons. eapply bind_ok; eauto.
    + apply conserves_trans with b1; [apply conserves_select |]; assumption.
    + simpl. rewrite read_interests_app, Hi1, Hi2. reflexivity.
Qed.

Lemma run_app envs more b :
  run (envs ++ more) b = bind (run envs b) (run more).
Proof.
  revert b. induction envs as [| env envs IH]; intros b.
  - unfold run. simpl. destruct (for_each more iteration b); reflexivity.
  - simpl app. rewrite !run_cons.
    destruct (iteration env b) as [[b1 | e | c |] t1]; simpl; try reflexivity.
    rewrite IH. destruct (run envs b1) as [[b2 | e | c |] t2]; simpl; try reflexivity.
    now rewrite app_assoc.
Qed.

(** *** Draining a buffer *)

Lemma iteration_serves env s b :
  healthy env -> serves s env ->
  exists b' tr,
    iteration env b = (Ok b', tr) /\ conserves b tr b' /\
    bytes_read (other s) tr = [] /\
    (length (buf s b') <= pred (length (buf s b)))%nat.
Proof.
  intros Hh (Hwr & Hq & Htake).
  destruct (iteration_ok env b Hh) as (b' & tr & H & _ & Hc & Hrd & _ & Hkeep & Hcut).
  exists b', (Select [S0; S1] (write_interest b) :: tr).
  specialize (Hrd _ Hq).
  split; [exact H | split; [now apply conserves_select | split; [exact Hrd |]]].
  specialize (Hkeep s). specialize (Hcut s).
  rewrite Hwr, write_interest_mem, Hrd, app_nil_r in Hkeep, Hcut. simpl in Hkeep, Hcut.
  destruct (buf s b) as [| x d] eqn:Hd.
  - rewrite Hkeep by reflexivity. simpl. lia.
  - destruct (Hcut eq_refl) as (n & Hn & Hb').
    destruct (Htake (x :: d)) as (k & Hk & Hpos); [discriminate |].
    assert (n = k) by congruence. subst k.
    rewrite Hb', slice_from_length by lia. simpl length. lia.
Qed.

Lemma run_serves envs s :
  Forall healthy envs -> Forall (serves s) envs ->
  forall b, exists b' tr,
    run envs b = (Ok b', tr) /\ conserves b tr b' /\
    bytes_read (other s) tr = [] /\
    (length (buf s b') <= length (buf s b) - length envs)%nat.
Proof.
  induction envs as [| env envs IH]; intros Hh Hs b.
  - exists b, []. simpl. repeat split; [apply conserves_refl | lia].
  - inversion Hh as [| ? ? Hh1 Hh2]; inversion Hs as [| ? ? Hs1 Hs2]; subst.
    destruct (iteration_serves env s b Hh1 Hs1) as (b1 & tr1 & H1 & Hc1 & Hr1 & Hl1).
    destruct (IH Hh2 Hs2 b1) as (b2 & tr2 & H2 & Hc2 & Hr2 & Hl2).
    exists b2, (tr1 ++ tr2). split; [| split; [| split]].
    + rewrite run_cons. eapply bind_ok; eauto.
    + now apply conserves_trans with b1.
    + rewrite bytes_read_app, Hr1, Hr2. reflexivity.
    + simpl length. lia.
Qed.

Lemma buf_empty t : buf t (@empty byte) = [].
Proof. destruct t; reflexivity. Qed.

Lemma write_interest_In t b : In t (write_interest b) <-> buf t b <> [].
Proof.
  rewrite <- mem_In, write_interest_mem.
  destruct (buf t b); simpl; split; congruence.
Qed.

Lemma iteration_head env b :
  exists r tr, iteration env b = (r, Select [S0; S1] (write_interest b) :: tr).
Proof.
  rewrite iteration_unfold. simpl. eexists. eexists. reflexivity.
Qed.

(** *** The claims on the loop *)

(** C1.  Run the loop from its start over any passes in which no call
    fails.  Then, for either target [t], what the reads on the other port
    delivered is what [t] took followed by what is still pending for [t].
    If from then on [t] is writable in every pass and takes at least one
    byte, while the other port delivers nothing more, then after as many
    passes as bytes were pending the bytes [t] took are exactly the bytes
    read from the other port, in order, and nothing is pending. *)
Theorem relay_delivers (envs : list Env) :
  Forall healthy envs ->
  exists b tr,
    run envs empty = (Ok b, tr) /\
    (forall t, bytes_read (other t) tr = bytes_written t tr ++ buf t b) /\
    (forall t more,
       Forall healthy more -> Forall (serves t) more ->
       (length (buf t b) <= length more)%nat ->
       exists b' tr',
         run (envs ++ more) empty = (Ok b', tr ++ tr') /\
         bytes_read (other t) (tr ++ tr') = bytes_read (other t) tr /\
         bytes_written t (tr ++ tr') = bytes_read (other t) tr /\
         buf t b' = []).
Proof.
  intros Hh. destruct (run_ok envs Hh empty) as (b & tr & Hrun & Hc & _).
  exists b, tr. split; [exact Hrun | split].
  - intros t. rewrite <- Hc, buf_empty. reflexivity.
  - intros t more Hm Hs Hlen.
    destruct (run_serves more t Hm Hs b) as (b' & tr' & Hrun' & Hc' & Hq & Hl).
    assert (Hnil : buf t b' = []) by (apply length_zero_iff_nil; lia).
    exists b', tr'. repeat split.
    + rewrite run_app. eapply bind_ok; eauto.
    + rewrite bytes_read_app, Hq. apply app_nil_r.
    + rewrite bytes_written_app. specialize (Hc t). specialize (Hc' t).
      rewrite buf_empty in Hc. rewrite Hq, Hnil, !app_nil_r in Hc'.
      simpl in Hc. rewrite Hc, Hc'. reflexivity.
    + exact Hnil.
Qed.

(** C2.  At the head of every pass reached without a failing call, the
    buffer for each target [t] is what remains of the bytes read from the
    other port once the bytes [t] took are removed from their front; and
    the buffer is non-empty exactly when [t] is in the write-interest list
    that the pass hands to its select. *)
Theorem buffer_is_unwritten_suffix (envs : list Env) :
  Forall healthy envs ->
  exists b tr,
    run envs empty = (Ok b, tr) /\
    (forall t, bytes_read (other t) tr = bytes_written t tr ++ buf t b) /\
    (forall t, buf t b <> [] <-> In t (write_interest b)) /\
    (forall env, exists r tr',
       iteration env b = (r, Select [S0; S1] (write_interest b) :: tr')).
Proof.
  intros Hh. destruct (run_ok envs Hh empty) as (b & tr & Hrun & Hc & _).
  exists b, tr. split; [exact Hrun | split; [| split]].
  - intros t. rewrite <- Hc, buf_empty. reflexivity.
  - intros t. symmetry. apply write_interest_In.
  - intros env. apply iteration_head.
Qed.

(** C3.  When a write on [s] reports [n] bytes, [n] less than the length
    of the buffer, the buffer loses its first [n] bytes and nothing else.
    In a later pass entered with the remainder followed by whatever was
    received since, [s] is in the write-interest list, the bytes received
    in that pass go behind, and if [s] is writable the one write on [s]
    is handed the remainder first. *)
Theorem partial_write_keeps_remainder (env : Env) s b n :
  write env s (buf s b) = inr n ->
  0 <= n < Z.of_nat (length (buf s b)) ->
  exists b',
    write_one env s b = (Ok b', [Wrote s (buf s b) n]) /\
    buf s b = firstn (Z.to_nat n) (buf s b) ++ buf s b' /\
    buf s b' = skipn (Z.to_nat n) (buf s b) /\
    buf s b' <> [] /\
    buf (other s) b' = buf (other s) b /\
    (forall env' b1 since,
       buf s b1 = buf s b' ++ since -> healthy env' ->
       In s (write_interest b1) /\
       exists b2 tr,
         iteration env' b1 = (Ok b2, Select [S0; S1] (write_interest b1) :: tr) /\
         (writable env' s = true ->
            offered s tr = [buf s b' ++ since ++ bytes_read (other s) tr]) /\
         (writable env' s = false ->
            offered s tr = [] /\
            buf s b2 = buf s b' ++ since ++ bytes_read (other s) tr)).
Proof.
  intros Hw Hn.
  destruct (write_one_ok env s b n Hw) as (b' & H & Hs & Ho).
  rewrite slice_from_nonneg in Hs by lia.
  assert (Hne : buf s b' <> []).
  { intros E. apply (f_equal (@length byte)) in E.
    rewrite Hs, length_skipn in E. simpl in E. lia. }
  exists b'. split; [exact H | split; [| split; [exact Hs | split; [exact Hne | split; [exact Ho |]]]]].
  - rewrite Hs. symmetry. apply firstn_skipn.
  - intros env' b1 since Hb1 Hh.
    assert (Hin : In s (write_interest b1)).
    { apply write_interest_In. rewrite Hb1. destruct (buf s b'); [congruence | discriminate]. }
    split; [exact Hin |].
    destruct (iteration_ok env' b1 Hh) as (b2 & tr & Hit & _ & _ & _ & Hof & Hkeep & _).
    exists b2, tr. split; [exact Hit |].
    apply mem_In in Hin. specialize (Hof s). specialize (Hkeep s).
    rewrite Hin, andb_true_r, Hb1, <- app_assoc in Hof, Hkeep.
    split; intros Hwr; rewrite Hwr in Hof; auto.
Qed.

(** C10.  Whatever count [n >= 0] a write reports, the step that follows
    succeeds and leaves the buffer with its first [n] bytes dropped: empty
    when [n] is at least the length of the buffer, unchanged when [n] is 0;
    the other buffer is as it was. *)
Theorem buffer_removal_total (env : Env) s b n :
  write env s (buf s b) = inr n ->
  0 <= n ->
  exists b',
    write_one env s b = (Ok b', [Wrote s (buf s b) n]) /\
    buf s b' = skipn (Z.to_nat n) (buf s b) /\
    (Z.of_nat (length (buf s b)) <= n -> buf s b' = []) /\
    (n = 0 -> buf s b' = buf s b) /\
    buf (other s) b' = buf (other s) b.
Proof.
  intros Hw Hn.
  destruct (write_one_ok env s b n Hw) as (b' & H & Hs & Ho).
  rewrite slice_from_nonneg in Hs by exact Hn.
  exists b'. repeat split; auto.
  - intros Hlen. rewrite Hs. apply skipn_all2. lia.
  - intros ->. exact Hs.
Qed.

(** *** Runs in which calls may fail *)

Lemma Forall_slice_from (P : byte -> Prop) n (l : list byte) :
  Forall P l -> Forall P (slice_from n l).
Proof.
  intros H. unfold slice_from.
  rewrite <- (firstn_skipn (Z.to_nat
    (if n <? 0 then Z.max (Z.of_nat (length l) + n) 0
     else Z.min n (Z.of_nat (length l)))) l) in H.
  apply Forall_app in H. apply H.
Qed.

Lemma iteration_meets (good fine : event -> Prop) (I : Buffers -> Prop) env :
  (forall wl, fine (Select [S0; S1] wl)) ->
  (forall s b, I b -> meets good fine I (read_one env s b)) ->
  (forall s b, I b -> meets good fine I (write_one env s b)) ->
  forall b, I b -> meets good fine I (iteration env b).
Proof.
  intros Hsel Hrd Hwr b Hb. rewrite iteration_unfold.
  eapply meets_bind with (P := fun _ => True).
  - intros _. split; [| auto]. simpl. constructor; [apply Hsel | constructor].
  - intros _ _. eapply meets_bind with (P := I).
    + apply meets_for_each; assumption.
    + intros b1 Hb1. apply meets_for_each; assumption.
Qed.

Lemma read_one_crossed origin env s b :
  crossed_buffers origin b ->
  meets (labelled origin) (crossed origin) (crossed_buffers origin) (read_one env s b).
Proof.
  intros Hb. destruct (read env s 8192) as [e | c] eqn:Hr.
  - rewrite (read_one_raise env s b e Hr). intros _. simpl.
    split; [repeat constructor | congruence].
  - destruct (read_one_ok env s b c Hr) as (b' & -> & Hs & Ho).
    intros Hg. simpl in *. inversion Hg as [| ? ? Hc _]; subst. simpl in Hc.
    split; [repeat constructor |].
    intros a [= <-] t. destruct (endpoint_eqb t s) eqn:E.
    + apply endpoint_eqb_eq in E. subst t. rewrite Hs. apply Hb.
    + apply endpoint_eqb_false in E. subst t. rewrite Ho, other_involutive.
      apply Forall_app. split; [| exact Hc].
      specialize (Hb (other s)). now rewrite other_involutive in Hb.
Qed.

Lemma write_one_crossed origin env s b :
  crossed_buffers origin b ->
  meets (labelled origin) (crossed origin) (crossed_buffers origin) (write_one env s b).
Proof.
  intros Hb. destruct (write env s (buf s b)) as [e | n] eqn:Hw.
  - rewrite (write_one_raise env s b e Hw). intros _. simpl.
    split; [repeat constructor | congruence].
  - destruct (write_one_ok env s b n Hw) as (b' & -> & Hs & Ho).
    intros _. simpl. split; [constructor; [apply Hb | constructor] |].
    intros a [= <-] t. destruct (endpoint_eqb t s) eqn:E.
    + apply endpoint_eqb_eq in E. subst t. rewrite Hs.
      apply Forall_slice_from, Hb.
    + apply endpoint_eqb_false in E. subst t. rewrite Ho. apply Hb.
Qed.

Lemma run_polls_both envs b :
  Forall polls_both (snd (run envs b)).
Proof.
  assert (H : meets (fun _ => True) polls_both (fun _ : Buffers => True) (run envs b)).
  { apply meets_for_each; [| exact I]. intros env b0 _.
    apply iteration_meets; [reflexivity | | | exact I].
    - intros s b1 _ _. split; [| auto]. unfold read_one, do_read.
      destruct (read env s 8192) as [e | c]; simpl; [repeat constructor |].
      destruct (length c =? 0)%nat; [| destruct (endpoint_eqb s S0)];
        simpl; repeat constructor.
    - intros s b1 _ _. split; [| auto]. unfold write_one, do_write.
      destruct (endpoint_eqb s S0);
        [destruct (write env s (buffer0 b1)) | destruct (write env s (buffer1 b1))];
        simpl; repeat constructor. }
  apply H. apply Forall_forall. auto.
Qed.

(** C4.  A read that returns no bytes raises nothing and leaves both
    buffers as they were.  Every select of every run asks about that port
    for reading; and a run whose passes include one with such a read, no
    call failing, goes through all its passes, one select each. *)
Theorem zero_length_read_is_ignored (env : Env) s b :
  read env s 8192 = inr [] ->
  read_one env s b = (Ok b, [Read s []]) /\
  (forall envs b0 rl wl, In (Select rl wl) (snd (run envs b0)) -> In s rl) /\
  (forall before after,
     healthy env -> Forall healthy before -> Forall healthy after ->
     exists b' tr,
       run (before ++ env :: after) empty = (Ok b', tr) /\
       read_interests tr = repeat [S0; S1] (length before + S (length after))).
Proof.
  intros Hr. split; [| split].
  - unfold read_one, do_read. rewrite Hr. reflexivity.
  - intros envs b0 rl wl Hin.
    pose proof (run_polls_both envs b0) as Hall.
    rewrite Forall_forall in Hall. specialize (Hall _ Hin). simpl in Hall.
    subst rl. destruct s; simpl; auto.
  - intros before after He Hb Ha.
    assert (Hall : Forall healthy (before ++ env :: after))
      by (apply Forall_app; split; [exact Hb | constructor; assumption]).
    destruct (run_ok _ Hall empty) as (b' & tr & Hrun & _ & Hi).
    exists b', tr. split; [exact Hrun |].
    rewrite Hi, length_app. reflexivity.
Qed.

(** C9.  A read on [s] that returns [c] puts [c] at the end of the buffer
    written to the other port and leaves the buffer written to [s] as it
    was.  Hence, however the bytes are labelled, if every byte read on a
    port carries that port's label, then in any run from the start every
    byte handed to a write on [t], and every byte pending for [t], carries
    the label of the other port. *)
Theorem no_echo (origin : byte -> Endpoint) (envs : list Env) :
  Forall (labelled origin) (snd (run envs empty)) ->
  (forall env s b c,
     read env s 8192 = inr c ->
     exists b', read_one env s b = (Ok b', [Read s c]) /\
                buf s b' = buf s b /\
                buf (other s) b' = buf (other s) b ++ c) /\
  (forall t d n, In (Wrote t d n) (snd (run envs empty)) ->
                 Forall (fun x => origin x = other t) d) /\
  (forall b, fst (run envs empty) = Ok b ->
             forall t, Forall (fun x => origin x = other t) (buf t b)).
Proof.
  intros Hlab. split; [intros env s b c; apply read_one_ok |].
  assert (H : meets (labelled origin) (crossed origin) (crossed_buffers origin)
                    (run envs empty)).
  { apply meets_for_each.
    - intros env b Hb. apply iteration_meets; auto.
      + intros; exact I.
      + intros; now apply read_one_crossed.
      + intros; now apply write_one_crossed.
    - intros t. rewrite buf_empty. constructor. }
  destruct (H Hlab) as [Hfine Hpost]. split.
  - intros t d n Hin. rewrite Forall_forall in Hfine. apply (Hfine _ Hin).
  - intros b Hb. apply Hpost, Hb.
Qed.

End RelayFacts.

(** ** Starting the threads *)

Lemma start_all_ok threads :
  Main.start_all threads
  = (Ok tt, map (fun thr => Main.Start (Main.name thr)) threads).
Proof.
  induction threads as [| thr rest IH]; simpl; [reflexivity |].
  rewrite IH. reflexivity.
Qed.

(** ** Failures of the relay *)

Section FailureFacts.
Import Snooper.
Context {byte : Type}.
Local Abbreviation event := (Snooper.event byte).
Local Abbreviation IO := (IO event).

Lemma orderly_ret {A} (a : A) : orderly (ret a : IO A).
Proof. constructor. Qed.

Lemma orderly_emit (ev : event) : is_failure ev = false -> orderly (emit ev).
Proof. intros H. simpl. unfold orderly. simpl. auto. Qed.

Lemma orderly_fail {A} s e : orderly (fail s e : IO A).
Proof. exists [], s, []. simpl. auto. Qed.

Lemma orderly_bind {A B} (m : IO A) (f : A -> IO B) :
  orderly m -> (forall a, orderly (f a)) -> orderly (bind m f).
Proof.
  intros Hm Hf. destruct m as [[a | e | c |] t]; try exact Hm.
  unfold orderly in Hm. simpl in Hm. specialize (Hf a).
  unfold orderly in *. simpl. destruct (fst (f a)).
  - apply Forall_app. auto.
  - destruct Hf as (pre & s & closes & -> & Hpre & Hcl).
    exists (t ++ pre), s, closes. rewrite <- app_assoc.
    split; [reflexivity | split; [apply Forall_app; auto | exact Hcl]].
  - apply Forall_app. auto.
  - apply Forall_app. auto.
Qed.

Lemma orderly_for_each {A St} (body : A -> St -> IO St) :
  (forall x st, orderly (body x st)) ->
  forall l st, orderly (for_each l body st).
Proof.
  intros Hb. induction l as [| x l IH]; intros st; simpl.
  - apply orderly_ret.
  - apply orderly_bind; auto.
Qed.

Lemma orderly_read_one env s (b : Buffers byte) : orderly (read_one env s b).
Proof.
  unfold read_one, do_read. apply orderly_bind.
  - destruct (read env s 8192); [apply orderly_fail |].
    apply orderly_bind; [now apply orderly_emit | intros; apply orderly_ret].
  - intros c. destruct (length c =? 0)%nat; [| destruct (endpoint_eqb s S0)];
      apply orderly_ret.
Qed.

Lemma orderly_do_write env s (d : list byte) : orderly (do_write env s d).
Proof.
  unfold do_write. destruct (write env s d); [apply orderly_fail |].
  apply orderly_bind; [now apply orderly_emit | intros; apply orderly_ret].
Qed.

Lemma orderly_write_one env s (b : Buffers byte) : orderly (write_one env s b).
Proof.
  unfold write_one. destruct (endpoint_eqb s S0);
    (apply orderly_bind; [apply orderly_do_write | intros; apply orderly_ret]).
Qed.

Lemma orderly_iteration env (b : Buffers byte) : orderly (iteration env b).
Proof.
  rewrite iteration_unfold.
  apply orderly_bind; [now apply orderly_emit |]. intros _.
  apply orderly_bind.
  - apply orderly_for_each. intros; apply orderly_read_one.
  - intros b1. apply orderly_for_each. intros; apply orderly_write_one.
Qed.

Lemma orderly_doit (envs : list (Env byte)) : orderly (doit envs).
Proof.
  unfold doit. apply orderly_bind.
  - apply orderly_for_each. intros; apply orderly_iteration.
  - intros _. constructor.
Qed.

Lemma orderly_with_serial {A} (w : World byte) s (body : IO A) :
  orderly body -> orderly (with_serial w s body).
Proof.
  intros Hb. unfold with_serial.
  apply orderly_bind; [now apply orderly_emit |]. intros _.
  destruct (open_res w s); [apply orderly_fail |].
  destruct body as [[a | e | c |] t]; unfold orderly in *; simpl in *.
  - apply Forall_app. split; [exact Hb | repeat constructor].
  - destruct Hb as (pre & s' & closes & -> & Hpre & Hcl).
    exists pre, s', (closes ++ [Close s]). rewrite <- app_assoc.
    split; [reflexivity | split; [exact Hpre |]].
    apply Forall_app. split; [exact Hcl | repeat constructor].
  - apply Forall_app. split; [exact Hb | repeat constructor].
  - exact Hb.
Qed.

Lemma orderly_runit (w : World byte) : orderly (runit w).
Proof.
  unfold runit. apply orderly_with_serial, orderly_with_serial, orderly_doit.
Qed.

Lemma orderly_failure {A} (m : IO A) s e :
  orderly m -> In (Failed s e) (snd m) ->
  fst m = Raise e /\
  exists pre closes,
    snd m = pre ++ Failed s e :: closes /\
    Forall (fun ev => is_failure ev = false) pre /\
    Forall (fun ev => is_close ev = true) closes.
Proof.
  unfold orderly. intros H Hin.
  assert (Hno : forall l : list event,
             Forall (fun ev => is_failure ev = false) l -> ~ In (Failed s e) l).
  { intros l Hl Hi. rewrite Forall_forall in Hl. specialize (Hl _ Hi). discriminate. }
  destruct (fst m) as [a | e' | c |]; try (exfalso; exact (Hno _ H Hin)).
  destruct H as (pre & s' & closes & Htr & Hpre & Hcl).
  rewrite Htr in Hin. apply in_app_or in Hin. destruct Hin as [Hin | [Heq | Hin]].
  - exfalso. exact (Hno _ Hpre Hin).
  - inversion Heq; subst. split; [reflexivity |]. exists pre, closes. auto.
  - rewrite Forall_forall in Hcl. specialize (Hcl _ Hin). discriminate.
Qed.

(** C6.  Whenever a call on a port fails during [runit], be it the open
    or a read or write of the loop, [runit] raises that very error, the
    failing call is the first failure and the last call but for the
    closing of ports, and [run] puts the error on the queue.  When the
    open of port 0 fails, port 1 is not opened.  The main thread, once it
    has parsed the command line, set up the logger and built and started
    the threads, raises the first error of the queue, whatever came after
    it, and the exit status is 1. *)
Theorem relay_error_is_fatal (w : World byte) :
  (forall s e,
     In (Failed s e) (snd (runit w)) ->
     fst (runit w) = Raise e /\
     (exists pre closes,
        snd (runit w) = pre ++ Failed s e :: closes /\
        Forall (fun ev => is_failure ev = false) pre /\
        Forall (fun ev => is_close ev = true) closes) /\
     (forall err, MyThread.run (runit w) err = err ++ [e])) /\
  (forall e, open_res w S0 = Some e ->
             runit w = (Raise e, [Open S0; Failed S0 e])) /\
  (forall e posted,
     Main.reraise_first (e :: posted) = (Raise e, []) /\
     Main.exit_status (fst (Main.reraise_first (e :: posted))) = Some 1) /\
  (forall int_of_string path_exists ttyname open_log cl args logger threads
          t1 t0 t2 e posted,
     Main.parse_args int_of_string cl = (Ok args, t1) ->
     Main.mkLogger open_log args None = (Ok logger, t0) ->
     Main.setup path_exists ttyname args = (Ok threads, t2) ->
     Main.main int_of_string path_exists ttyname open_log cl (e :: posted)
     = (Raise e,
        t1 ++ t0 ++ t2 ++ map (fun thr => Main.Start (Main.name thr)) threads)).
Proof.
  split; [| split; [| split]].
  - intros s e Hin.
    destruct (orderly_failure (runit w) s e (orderly_runit w) Hin) as [Hr Htr].
    split; [exact Hr | split; [exact Htr |]].
    intros err. unfold MyThread.run. destruct (runit w) as [r tr]. simpl in Hr.
    subst r. reflexivity.
  - intros e He. unfold runit, with_serial at 1. rewrite He. reflexivity.
  - intros e posted. split; reflexivity.
  - intros ios pe tty ol cl args logger threads t1 t0 t2 e posted Hp Hl Hs.
    unfold Main.main. rewrite Hp. simpl. rewrite Hl. simpl. rewrite Hs. simpl.
    rewrite start_all_ok. simpl. now rewrite app_nil_r.
Qed.

End FailureFacts.

(** ** The simulated endpoint *)

Section SimulationFacts.
Import Simulation.

Lemma iteration_on_time (key : string) (dt : Z) (env : Env) (tNext : Z) :
  0 <= tNext - now_select env ->
  iteration key dt env tNext
  = if ready env
    then (Ok tNext, [Wait (tNext - now_select env); Recv (incoming env)])
    else (Ok (now_reset env + dt),
          [Wait (tNext - now_select env); Send key (now_msg env)]).
Proof.
  intros Ht. unfold iteration, select. simpl.
  destruct (Z.ltb_spec (tNext - now_select env) 0) as [Hneg | _]; [lia |].
  destruct (ready env); reflexivity.
Qed.

Lemma iteration_late (key : string) (dt : Z) (env : Env) (tNext : Z) :
  tNext - now_select env < 0 ->
  iteration key dt env tNext
  = (Raise (ValueError "timeout must be non-negative"),
     [Wait (tNext - now_select env)]).
Proof.
  intros Ht. unfold iteration, select. simpl.
  destruct (Z.ltb_spec (tNext - now_select env) 0) as [_ | Hpos]; [reflexivity | lia].
Qed.

Lemma productions_app tr1 tr2 :
  productions (tr1 ++ tr2) = (productions tr1 + productions tr2)%nat.
Proof. unfold productions. rewrite filter_app. apply length_app. Qed.

Lemma sim_run_app (key : string) (dt : Z) (envs more : list Env) tNext :
  run key dt (envs ++ more) tNext = bind (run key dt envs tNext) (run key dt more).
Proof.
  revert tNext. induction envs as [| env envs IH]; intros tNext; simpl.
  - destruct (run key dt more tNext); reflexivity.
  - destruct (iteration key dt env tNext) as [[t1 | e | c |] tr1]; simpl; try reflexivity.
    rewrite IH. destruct (run key dt envs t1) as [[t2 | e | c |] tr2]; simpl;
      try reflexivity.
    now rewrite app_assoc.
Qed.

(** What the generator does over passes that all find a byte waiting
    before the deadline is over. *)
Lemma run_reading (key : string) (dt : Z) (reading : list Env) (tNext : Z) :
  Forall (fun env => ready env = true /\ now_select env <= tNext) reading ->
  run key dt reading tNext
  = (Ok tNext,
     flat_map (fun env => [Wait (tNext - now_select env); Recv (incoming env)]) reading).
Proof.
  induction 1 as [| env reading [Hr Ht] _ IH]; [reflexivity |].
  simpl run. rewrite (iteration_on_time key dt env tNext) by lia.
  rewrite Hr. simpl. rewrite IH. reflexivity.
Qed.

Lemma reading_produces_nothing (tNext : Z) (reading : list Env) :
  productions
    (flat_map (fun env => [Wait (tNext - now_select env); Recv (incoming env)]) reading)
  = 0%nat.
Proof. induction reading as [| env reading IH]; [reflexivity | exact IH]. Qed.

(** C5, on the code.  Let bytes be waiting in every pass of the
    generator up to its deadline, and let the next pass be entered once
    the clock is past the deadline.  Then the message that was due is
    never written: every pass before the deadline reads, leaving the
    deadline as it was, and the pass after it hands select a negative
    timeout, which raises [ValueError] and ends the generator, whatever
    would have come next. *)
Theorem traffic_past_deadline_ends_generator (key : string) (delay start : Z)
        (reading : list Env) (late : Env) (after : list Env) :
  Forall (fun env => ready env = true /\ now_select env <= start + delay) reading ->
  start + delay < now_select late ->
  runit key delay start (reading ++ late :: after)
  = (Raise (ValueError "timeout must be non-negative"),
     flat_map (fun env => [Wait (start + delay - now_select env); Recv (incoming env)])
              reading
     ++ [Wait (start + delay - now_select late)]) /\
  productions (snd (runit key delay start (reading ++ late :: after))) = 0%nat.
Proof.
  intros Hread Hlate.
  assert (H : runit key delay start (reading ++ late :: after)
              = (Raise (ValueError "timeout must be non-negative"),
                 flat_map (fun env => [Wait (start + delay - now_select env);
                                       Recv (incoming env)]) reading
                 ++ [Wait (start + delay - now_select late)])).
  { unfold runit. rewrite sim_run_app, (run_reading key delay reading _ Hread).
    simpl. rewrite (iteration_late key delay late (start + delay)) by lia.
    reflexivity. }
  split; [exact H |]. rewrite H. simpl.
  rewrite productions_app, reading_produces_nothing. reflexivity.
Qed.

End SimulationFacts.

(** ** The command line *)

Section MainFacts.
Import Main.
Variable int_of_string : string -> option Z.
Variable path_exists : string -> bool.
Variable ttyname : string -> string.
Variable open_log : string -> option exn.

Lemma get_value_port arg :
  get_value opt_port arg
  = (Ok (match arg with Some p => Str p | None => PyNone end), []).
Proof. destruct arg; reflexivity. Qed.

Lemma get_value_baud_given s :
  get_value opt_baud (Some s) = (Exit 2, [Usage "invalid choice"]).
Proof. reflexivity. Qed.

(** C7, on the code.  [--baud 9600] is refused: the word stays a string,
    and a string is not among the numbers of [choices]; so is every other
    word.  Without [--baud] the rate is the number 9600. *)
Theorem baud_9600_is_rejected :
  get_value opt_baud (Some "9600"%string) = (Exit 2, [Usage "invalid choice"]) /\
  (forall s, get_value opt_baud (Some s) = (Exit 2, [Usage "invalid choice"])) /\
  get_value opt_baud None = (Ok (Int 9600), []) /\
  parse_args int_of_string Sample.with_baud = (Exit 2, [Usage "invalid choice"]).
Proof. repeat split. Qed.

(** *** One option, then all of them *)

Lemma take_cases (w : Word) (a : Args) :
  (exists a', take int_of_string w a = (Ok a', [])) \/
  (w = Help /\ take int_of_string w a = (Exit 0, [PrintHelp])) \/
  (exists msg, take int_of_string w a = (Exit 2, [Usage msg])).
Proof.
  destruct w; simpl; try (left; eexists; reflexivity);
    try (right; left; split; reflexivity);
    try (right; right; eexists; reflexivity);
    unfold type_int; destruct (int_of_string s); simpl;
    solve [left; eexists; reflexivity | right; right; eexists; reflexivity].
Qed.

Lemma parse_outcome (cl : CmdLine) :
  forall a0,
    (exists a, for_each cl (take int_of_string) a0 = (Ok a, [])) \/
    (for_each cl (take int_of_string) a0 = (Exit 0, [PrintHelp]) /\ cl_help cl = true) \/
    (exists msg, for_each cl (take int_of_string) a0 = (Exit 2, [Usage msg])).
Proof.
  induction cl as [| w rest IH]; intros a0.
  - left. exists a0. reflexivity.
  - simpl for_each.
    destruct (take_cases w a0) as [[a1 H1] | [[Hw H1] | [msg H1]]]; rewrite H1; simpl.
    + destruct (IH a1) as [[a H] | [[H Hh] | [msg H]]]; rewrite H; simpl.
      * left. eauto.
      * right. left. split; [reflexivity |]. unfold cl_help in *. simpl.
        rewrite Hh. apply orb_true_r.
      * right. right. eauto.
    + right. left. subst w. split; reflexivity.
    + right. right. eauto.
Qed.

(** What the namespace holds when all options went through. *)
Lemma parse_from (cl : CmdLine) :
  forall a0 a t,
    for_each cl (take int_of_string) a0 = (Ok a, t) ->
    t = [] /\
    cl_help cl = false /\
    cl_baud cl = None /\ baud a = baud a0 /\
    test a = test a0 || cl_test cl /\
    port0 a = match cl_port0 cl with Some p => Str p | None => port0 a0 end /\
    port1 a = match cl_port1 cl with Some p => Str p | None => port1 a0 end /\
    logfile a = match cl_logfile cl with Some f => Str f | None => logfile a0 end /\
    match cl_delay0 cl with
    | Some s => exists z, int_of_string s = Some z /\ delay0 a = Int z
    | None => delay0 a = delay0 a0
    end /\
    match cl_delay1 cl with
    | Some s => exists z, int_of_string s = Some z /\ delay1 a = Int z
    | None => delay1 a = delay1 a0
    end.
Proof.
  induction cl as [| w rest IH]; intros a0 a t Hrun.
  - inversion Hrun; subst. simpl. rewrite orb_false_r. repeat split.
  - simpl for_each in Hrun. apply bind_inv_ok in Hrun.
    destruct Hrun as (a1 & t1 & t2 & H1 & H2 & ->).
    destruct (IH a1 a t2 H2)
      as (-> & Hh & Hbd & Hb & Ht & Hp0 & Hp1 & Hlf & Hd0 & Hd1).
    clear IH H2.
    unfold cl_help, cl_baud, cl_test, cl_port0, cl_port1, cl_logfile,
      cl_delay0, cl_delay1 in *.
    simpl existsb. simpl last_of. rewrite Hh, Hbd, Hb, Ht, Hp0, Hp1, Hlf.
    rewrite app_nil_r.
    destruct w; simpl in H1;
      try discriminate;
      try (unfold type_int in H1;
           destruct (int_of_string s) as [z |] eqn:Hz; simpl in H1; [| discriminate]);
      inversion H1; subst a1 t1; simpl in *.
    all: split; [reflexivity |].
    all: split; [reflexivity |].
    all: split; [reflexivity |].
    all: split; [reflexivity |].
    all: split; [try reflexivity; destruct (test a0); reflexivity |].
    all: split; [match goal with |- context [last_of ?f ?r] =>
                   destruct (last_of f r); reflexivity end |].
    all: split; [match goal with |- context [last_of ?f ?r] =>
                   destruct (last_of f r); reflexivity end |].
    all: split; [match goal with |- context [last_of ?f ?r] =>
                   destruct (last_of f r); reflexivity end |].
    all: split.
    all: match goal with
         | |- context [last_of ?f ?r] =>
             destruct (last_of f r); solve [assumption | eauto]
         end.
Qed.

Lemma parse_args_ok (cl : CmdLine) (args : Args) (t : list event) :
  parse_args int_of_string cl = (Ok args, t) ->
  t = [] /\
  cl_help cl = false /\
  cl_baud cl = None /\ baud args = Int 9600 /\
  test args = cl_test cl /\
  port0 args = match cl_port0 cl with Some p => Str p | None => PyNone end /\
  port1 args = match cl_port1 cl with Some p => Str p | None => PyNone end /\
  logfile args = match cl_logfile cl with Some f => Str f | None => PyNone end /\
  match cl_delay0 cl with
  | Some s => exists z, int_of_string s = Some z /\ delay0 args = Int z
  | None => delay0 args = Int 11
  end /\
  match cl_delay1 cl with
  | Some s => exists z, int_of_string s = Some z /\ delay1 args = Int z
  | None => delay1 args = Int 17
  end.
Proof. intros H. exact (parse_from cl (defaults int_of_string) args t H). Qed.

(** The logger is set up unless the log file cannot be opened. *)
Lemma mkLogger_cases (args : Args) (f : option string) :
  logfile args = match f with Some n => Str n | None => PyNone end ->
  (exists logger, mkLogger open_log args None = (Ok logger, [])) \/
  (exists n e, f = Some n /\ open_log n = Some e /\
               mkLogger open_log args None = (Raise e, [])).
Proof.
  intros Hf. unfold mkLogger. rewrite Hf. destruct f as [n |]; simpl.
  - destruct (open_log n) as [e |] eqn:Ho; simpl.
    + right. exists n, e. auto.
    + left. eexists. reflexivity.
  - left. eexists. reflexivity.
Qed.


End MainFacts.


(** *** The claims at sample inputs *)

Lemma relay_delivers_witness :
  Forall Snooper.healthy [Sample.burst] /\
  exists b tr,
    Snooper.run [Sample.burst] Snooper.empty = (Ok b, tr) /\
    (forall t, Snooper.bytes_read (other t) tr
               = Snooper.bytes_written t tr ++ Snooper.buf t b) /\
    (forall t more,
       Forall Snooper.healthy more -> Forall (Snooper.serves t) more ->
       (length (Snooper.buf t b) <= length more)%nat ->
       exists b' tr',
         Snooper.run ([Sample.burst] ++ more) Snooper.empty = (Ok b', tr ++ tr') /\
         Snooper.bytes_read (other t) (tr ++ tr') = Snooper.bytes_read (other t) tr /\
         Snooper.bytes_written t (tr ++ tr') = Snooper.bytes_read (other t) tr /\
         Snooper.buf t b' = []).
Proof.
  assert (H : Forall Snooper.healthy [Sample.burst]).
  { constructor; [| constructor]. split.
    - intros s size. eexists. reflexivity.
    - intros s d. eexists. split; [reflexivity | lia]. }
  split; [exact H | exact (relay_delivers [Sample.burst] H)].
Defined.

Lemma buffer_is_unwritten_suffix_witness :
  Forall Snooper.healthy [Sample.burst; Sample.idle] /\
  exists b tr,
    Snooper.run [Sample.burst; Sample.idle] Snooper.empty = (Ok b, tr) /\
    (forall t, Snooper.bytes_read (other t) tr
               = Snooper.bytes_written t tr ++ Snooper.buf t b) /\
    (forall t, Snooper.buf t b <> [] <-> In t (Snooper.write_interest b)) /\
    (forall env, exists r tr',
       Snooper.iteration env b
       = (r, Snooper.Select [S0; S1] (Snooper.write_interest b) :: tr')).
Proof.
  assert (H : Forall Snooper.healthy [Sample.burst; Sample.idle]).
  { repeat constructor.
    - intros s size. eexists. reflexivity.
    - intros s d. eexists. split; [reflexivity | lia].
    - intros s size. eexists. reflexivity.
    - intros s d. eexists. split; [reflexivity | lia]. }
  split; [exact H | exact (buffer_is_unwritten_suffix _ H)].
Defined.

Lemma partial_write_keeps_remainder_witness :
  Snooper.write Sample.burst S1 (Snooper.buf S1 Sample.pending) = inr 2 /\
  0 <= 2 < Z.of_nat (length (Snooper.buf S1 Sample.pending)) /\
  exists b',
    Snooper.write_one Sample.burst S1 Sample.pending
    = (Ok b', [Snooper.Wrote S1 (Snooper.buf S1 Sample.pending) 2]) /\
    Snooper.buf S1 Sample.pending
    = firstn (Z.to_nat 2) (Snooper.buf S1 Sample.pending) ++ Snooper.buf S1 b' /\
    Snooper.buf S1 b' = skipn (Z.to_nat 2) (Snooper.buf S1 Sample.pending) /\
    Snooper.buf S1 b' <> [] /\
    Snooper.buf (other S1) b' = Snooper.buf (other S1) Sample.pending /\
    (forall env' b1 since,
       Snooper.buf S1 b1 = Snooper.buf S1 b' ++ since -> Snooper.healthy env' ->
       In S1 (Snooper.write_interest b1) /\
       exists b2 tr,
         Snooper.iteration env' b1
         = (Ok b2, Snooper.Select [S0; S1] (Snooper.write_interest b1) :: tr) /\
         (Snooper.writable env' S1 = true ->
            Snooper.offered S1 tr
            = [Snooper.buf S1 b' ++ since ++ Snooper.bytes_read (other S1) tr]) /\
         (Snooper.writable env' S1 = false ->
            Snooper.offered S1 tr = [] /\
            Snooper.buf S1 b2
            = Snooper.buf S1 b' ++ since ++ Snooper.bytes_read (other S1) tr)).
Proof.
  assert (Hw : Snooper.write Sample.burst S1 (Snooper.buf S1 Sample.pending) = inr 2)
    by reflexivity.
  assert (Hn : 0 <= 2 < Z.of_nat (length (Snooper.buf S1 Sample.pending)))
    by (simpl; lia).
  split; [exact Hw | split; [exact Hn |]].
  exact (partial_write_keeps_remainder Sample.burst S1 Sample.pending 2 Hw Hn).
Defined.

Lemma zero_length_read_is_ignored_witness :
  Snooper.read Sample.idle S0 8192 = inr [] /\
  Snooper.read_one Sample.idle S0 Sample.pending
  = (Ok Sample.pending, [Snooper.Read S0 []]) /\
  (forall (envs : list (Snooper.Env Byte.byte)) b0 rl wl,
     In (Snooper.Select rl wl) (snd (Snooper.run envs b0)) -> In S0 rl) /\
  (forall before after,
     Snooper.healthy Sample.idle ->
     Forall Snooper.healthy before -> Forall Snooper.healthy after ->
     exists b' tr,
       Snooper.run (before ++ Sample.idle :: after) Snooper.empty = (Ok b', tr) /\
       Snooper.read_interests tr
       = repeat [S0; S1] (length before + S (length after))).
Proof.
  split; [reflexivity |].
  exact (zero_length_read_is_ignored Sample.idle S0 Sample.pending eq_refl).
Defined.

Lemma no_echo_witness :
  Forall (Snooper.labelled fst) (snd (Snooper.run [Sample.marked; Sample.marked] Snooper.empty)) /\
  (forall t d n,
     In (Snooper.Wrote t d n) (snd (Snooper.run [Sample.marked; Sample.marked] Snooper.empty)) ->
     Forall (fun x => fst x = other t) d) /\
  (forall b, fst (Snooper.run [Sample.marked; Sample.marked] Snooper.empty) = Ok b ->
             forall t, Forall (fun x => fst x = other t) (Snooper.buf t b)).
Proof.
  assert (H : Forall (Snooper.labelled fst)
                (snd (Snooper.run [Sample.marked; Sample.marked] Snooper.empty))).
  { simpl. repeat constructor. }
  split; [exact H |].
  exact (proj2 (no_echo fst [Sample.marked; Sample.marked] H)).
Defined.

Lemma buffer_removal_total_witness :
  Snooper.write Sample.burst S1 (Snooper.buf S1 Sample.pending) = inr 2 /\
  0 <= 2 /\
  exists b',
    Snooper.write_one Sample.burst S1 Sample.pending
    = (Ok b', [Snooper.Wrote S1 (Snooper.buf S1 Sample.pending) 2]) /\
    Snooper.buf S1 b' = skipn (Z.to_nat 2) (Snooper.buf S1 Sample.pending) /\
    (Z.of_nat (length (Snooper.buf S1 Sample.pending)) <= 2 -> Snooper.buf S1 b' = []) /\
    (2 = 0 -> Snooper.buf S1 b' = Snooper.buf S1 Sample.pending) /\
    Snooper.buf (other S1) b' = Snooper.buf (other S1) Sample.pending.
Proof.
  assert (Hw : Snooper.write Sample.burst S1 (Snooper.buf S1 Sample.pending) = inr 2)
    by reflexivity.
  assert (Hn : 0 <= 2) by lia.
  split; [exact Hw | split; [exact Hn |]].
  exact (buffer_removal_total Sample.burst S1 Sample.pending 2 Hw Hn).
Defined.


(** *** Runs on sample inputs *)

(** "ABC" arrives on port 0 and leaves on port 1, two bytes then one. *)
Example burst_then_drain :
  Snooper.run [Sample.burst; Sample.idle; Sample.idle] Snooper.empty
  = (Ok Snooper.empty,
     [Snooper.Select [S0; S1] []; Snooper.Read S0 [x41; x42; x43];
      Snooper.Select [S0; S1] [S1]; Snooper.Read S0 [];
      Snooper.Wrote S1 [x41; x42; x43] 2;
      Snooper.Select [S0; S1] [S1]; Snooper.Read S0 [];
      Snooper.Wrote S1 [x43] 1]).
Proof. reflexivity. Qed.

(** A read that fails in the second pass ends the relay; both ports are
    closed, the inner one first. *)
Example read_failure_ends_relay :
  Snooper.runit {| Snooper.open_res := fun _ => None;
                   Snooper.passes := [Sample.burst; Sample.broken; Sample.idle] |}
  = (Raise (SerialException "device disconnected"),
     [Snooper.Open S0; Snooper.Open S1;
      Snooper.Select [S0; S1] []; Snooper.Read S0 [x41; x42; x43];
      Snooper.Select [S0; S1] [S1];
      Snooper.Failed S0 (SerialException "device disconnected");
      Snooper.Close S1; Snooper.Close S0]).
Proof. reflexivity. Qed.

(** With a byte still waiting once the clock has passed the deadline, the
    timeout handed to select is negative and select raises. *)
Example select_after_deadline_raises :
  Simulation.runit "0" 1000 0 [Sample.busy; Sample.busy_still; Sample.late; Sample.calm]
  = (Raise (ValueError "timeout must be non-negative"),
     [Simulation.Wait 2; Simulation.Recv [x41];
      Simulation.Wait 1; Simulation.Recv [x42];
      Simulation.Wait (-1)]).
Proof. reflexivity. Qed.

(** Without traffic the generator writes at each timeout and moves the
    deadline on by the delay. *)
Example calm_generator_produces :
  Simulation.run "0" 1000 [Sample.calm] 1000
  = (Ok 2002, [Simulation.Wait 999; Simulation.Send "0" 1000]).
Proof. reflexivity. Qed.

(** [--test] alone builds the two generators and the relay on their ptys,
    then starts them. *)
Example test_mode_starts_three_threads :
  Main.main (fun _ => None) (fun _ => true) (String.append "/dev/pts/")
    Sample.any_log [Main.Test] []
  = (Running,
     [Main.Create "Sim0"; Main.Create "Sim1"; Main.Create "Snooper";
      Main.Start "Sim0"; Main.Start "Sim1"; Main.Start "Snooper"]).
Proof. reflexivity. Qed.

(** An error before the help is reported, a help before an error wins. *)
Example first_offender_ends_parsing :
  Main.parse_args (fun _ => None) [Main.Baud "9600"; Main.Help]
  = (Exit 2, [Main.Usage "invalid choice"]) /\
  Main.parse_args (fun _ => None) [Main.Help; Main.Baud "9600"]
  = (Exit 0, [Main.PrintHelp]).
Proof. split; reflexivity. Qed.

(** * Further properties *)

(** ** More on the relay loop *)

Section RelayMore.
Import Snooper.
Context {byte : Type}.
Local Abbreviation event := (Snooper.event byte).
Local Abbreviation Env := (Snooper.Env byte).
Local Abbreviation Buffers := (Snooper.Buffers byte).

Implicit Types (s t : Endpoint) (b : Buffers) (env : Env) (tr : list event).

Lemma read_one_inv env s b b' tr :
  read_one env s b = (Ok b', tr) ->
  exists c, read env s 8192 = inr c /\ tr = [Read s c].
Proof.
  destruct (read env s 8192) as [e | c] eqn:Hr.
  - rewrite (read_one_raise env s b e Hr). discriminate.
  - destruct (read_one_ok env s b c Hr) as (b1 & -> & _).
    intros [= <- <-]. exists c. auto.
Qed.

Lemma read_phase_absent env rl :
  forall b b' tr,
    read_phase env rl b = (Ok b', tr) ->
    forall t, ~ In t rl -> bytes_read t tr = [].
Proof.
  induction rl as [| s rl IH]; intros b b' tr Hrun t Ht.
  - inversion Hrun; subst. reflexivity.
  - unfold read_phase in Hrun. simpl for_each in Hrun.
    apply bind_inv_ok in Hrun. destruct Hrun as (b1 & t1 & t2 & H1 & H2 & ->).
    destruct (read_one_inv env s b b1 t1 H1) as (c & Hc & ->).
    simpl. destruct (endpoint_eqb t s) eqn:E.
    + apply endpoint_eqb_eq in E. subst t. exfalso. apply Ht. left. reflexivity.
    + simpl. apply (IH b1 b' t2 H2). intros Hin. apply Ht. right. exact Hin.
Qed.

Lemma read_phase_reads env rl :
  NoDup rl ->
  forall b b' tr,
    read_phase env rl b = (Ok b', tr) ->
    forall t, bytes_read t tr = [] \/ read env t 8192 = inr (bytes_read t tr).
Proof.
  induction rl as [| s rl IH]; intros Hnd b b' tr Hrun t.
  - inversion Hrun; subst. left. reflexivity.
  - inversion Hnd as [| ? ? Hnotin Hnd']; subst.
    unfold read_phase in Hrun. simpl for_each in Hrun.
    apply bind_inv_ok in Hrun. destruct Hrun as (b1 & t1 & t2 & H1 & H2 & ->).
    destruct (read_one_inv env s b b1 t1 H1) as (c & Hc & ->).
    simpl. destruct (endpoint_eqb t s) eqn:E.
    + apply endpoint_eqb_eq in E. subst t.
      rewrite (read_phase_absent env rl b1 b' t2 H2 s Hnotin), app_nil_r.
      right. exact Hc.
    + simpl. apply (IH Hnd' b1 b' t2 H2).
Qed.

Lemma readable_NoDup env : NoDup (filter (readable env) [S0; S1]).
Proof.
  apply NoDup_filter. repeat constructor; simpl; intuition discriminate.
Qed.

Lemma iteration_reads env b :
  healthy env ->
  exists b' tr,
    iteration env b = (Ok b', Select [S0; S1] (write_interest b) :: tr) /\
    forall t, bytes_read t tr = [] \/ read env t 8192 = inr (bytes_read t tr).
Proof.
  intros Hh. pose proof Hh as [Hr Hw].
  destruct (read_phase_ok env (filter (readable env) [S0; S1]) Hr b)
    as (b1 & tr1 & H1 & _).
  assert (Hnd : NoDup (filter (writable env) (write_interest b)))
    by (apply NoDup_filter, write_interest_NoDup).
  destruct (write_phase_ok env _ Hw Hnd b1) as (b2 & tr2 & H2 & _ & Hr2 & _).
  exists b2, (tr1 ++ tr2). split.
  - rewrite iteration_unfold.
    change (Select [S0; S1] (write_interest b) :: tr1 ++ tr2)
      with ([Select [S0; S1] (write_interest b)] ++ (tr1 ++ tr2)).
    eapply bind_ok; [reflexivity |]. eapply bind_ok; eauto.
  - intros t. rewrite bytes_read_app, Hr2, app_nil_r.
    exact (read_phase_reads env _ (readable_NoDup env) b b1 tr1 H1 t).
Qed.

(** X1.  While a port is never reported writable, nothing is written to
    it and nothing is dropped: its buffer holds every byte read from the
    other port so far, however many. *)
Theorem unwritable_target_accumulates (envs : list Env) t :
  Forall healthy envs ->
  Forall (fun env => writable env t = false) envs ->
  exists b tr,
    run envs empty = (Ok b, tr) /\
    offered t tr = [] /\
    bytes_written t tr = [] /\
    buf t b = bytes_read (other t) tr.
Proof.
  intros Hh Hw.
  assert (Hgen : forall b0, exists b tr,
             run envs b0 = (Ok b, tr) /\ offered t tr = [] /\
             buf t b = buf t b0 ++ bytes_read (other t) tr).
  { induction envs as [| env envs IH]; intros b0.
    - exists b0, []. simpl. repeat split. now rewrite app_nil_r.
    - inversion Hh as [| ? ? Hh1 Hh2]; inversion Hw as [| ? ? Hw1 Hw2]; subst.
      destruct (iteration_ok env b0 Hh1) as (b1 & tr1 & H1 & _ & _ & _ & Hof & Hkeep & _).
      destruct (IH Hh2 Hw2 b1) as (b2 & tr2 & H2 & Hof2 & Hb2).
      specialize (Hof t). specialize (Hkeep t). rewrite Hw1 in Hof, Hkeep.
      simpl in Hof, Hkeep.
      exists b2, ((Select [S0; S1] (write_interest b0) :: tr1) ++ tr2).
      split; [| split].
      + rewrite run_cons. eapply bind_ok; eauto.
      + rewrite offered_app. simpl. rewrite Hof, Hof2. reflexivity.
      + rewrite bytes_read_app. simpl. rewrite Hb2, Hkeep by reflexivity.
        now rewrite app_assoc. }
  destruct (Hgen empty) as (b & tr & Hrun & Hof & Hb).
  rewrite buf_empty in Hb. simpl in Hb.
  exists b, tr. split; [exact Hrun | split; [exact Hof | split; [| exact Hb]]].
  destruct (run_ok envs Hh empty) as (b' & tr' & Hrun' & Hc & _).
  rewrite Hrun in Hrun'. inversion Hrun'; subst b' tr'.
  specialize (Hc t). rewrite buf_empty, Hb in Hc. simpl in Hc.
  symmetry in Hc. rewrite <- (app_nil_l (bytes_read (other t) tr)) in Hc at 2.
  apply app_inv_tail in Hc. exact Hc.
Qed.

(** X2.  Whether a port is written in a pass is settled by what was
    pending for it at the head of the pass.  With bytes pending and the
    port writable, the single write of the pass is handed the pending
    bytes followed by the bytes read in this very pass.  With nothing
    pending, the port is not written in this pass even when it is
    writable: what is read for it stays in the buffer for a later pass. *)
Theorem write_interest_is_decided_before_reads (env : Env) b :
  healthy env ->
  exists b' tr,
    iteration env b = (Ok b', Select [S0; S1] (write_interest b) :: tr) /\
    (forall t, buf t b <> [] -> writable env t = true ->
               offered t tr = [buf t b ++ bytes_read (other t) tr]) /\
    (forall t, buf t b = [] ->
               offered t tr = [] /\ bytes_written t tr = [] /\
               buf t b' = bytes_read (other t) tr).
Proof.
  intros Hh.
  destruct (iteration_ok env b Hh) as (b' & tr & H & _ & Hc & _ & Hof & Hkeep & _).
  exists b', tr. split; [exact H | split].
  - intros t Hne Hwr. rewrite Hof, Hwr, write_interest_mem.
    destruct (buf t b); [congruence | reflexivity].
  - intros t Hnil.
    assert (Hno : writable env t && mem t (write_interest b) = false)
      by (rewrite write_interest_mem, Hnil; apply andb_false_r).
    specialize (Hof t). specialize (Hkeep t Hno). specialize (Hc t).
    rewrite Hno in Hof. rewrite Hnil in Hkeep, Hc. simpl in Hkeep, Hc.
    split; [exact Hof | split; [| exact Hkeep]].
    rewrite Hkeep in Hc. symmetry in Hc.
    rewrite <- (app_nil_l (bytes_read (other t) tr)) in Hc at 2.
    apply app_inv_tail in Hc. exact Hc.
Qed.

(** X3.  When reads return no more than they are asked for, a pass adds
    at most 8192 bytes to either buffer. *)
Theorem buffer_growth_per_pass (env : Env) b :
  healthy env ->
  honours_size env ->
  exists b' tr,
    iteration env b = (Ok b', tr) /\
    forall t, Z.of_nat (length (buf t b')) <= Z.of_nat (length (buf t b)) + 8192.
Proof.
  intros Hh Hsz.
  destruct (iteration_ok env b Hh) as (b' & tr & H & _ & _ & _ & _ & Hkeep & Hcut).
  destruct (iteration_reads env b Hh) as (b2 & tr2 & H2 & Hrd).
  rewrite H in H2. inversion H2; subst b2 tr2. clear H2.
  exists b', (Select [S0; S1] (write_interest b) :: tr). split; [exact H |].
  intros t.
  assert (Hlen : Z.of_nat (length (bytes_read (other t) tr)) <= 8192).
  { destruct (Hrd (other t)) as [-> | Hc]; [simpl; lia |].
    apply Hsz in Hc; [exact Hc | lia]. }
  destruct (writable env t && mem t (write_interest b)) eqn:E.
  - destruct (Hcut t E) as (n & Hn & ->).
    destruct Hh as [_ Hw].
    destruct (Hw t (buf t b ++ bytes_read (other t) tr)) as (k & Hk & Hrange).
    assert (n = k) by congruence. subst k.
    rewrite slice_from_length, length_app by lia. lia.
  - rewrite (Hkeep t E), length_app. lia.
Qed.

(** X4.  When the read on a readable port fails, the pass raises and no
    write is made in it: what was pending, and what an earlier read of
    the pass brought in, is not written. *)
Theorem read_failure_preempts_writes (env : Env) b s e :
  readable env s = true ->
  read env s 8192 = inl e ->
  exists e' tr,
    iteration env b = (Raise e', tr) /\
    (forall t, offered t tr = []) /\
    (forall t, bytes_written t tr = []) /\
    (s = S0 -> e' = e).
Proof.
  intros Hrd He. rewrite iteration_unfold. unfold read_phase.
  destruct s.
  - simpl filter at 1. rewrite Hrd. simpl for_each.
    rewrite (read_one_raise env S0 b e He). simpl.
    exists e. eexists. split; [reflexivity |]. repeat split; auto.
  - simpl filter at 1. rewrite Hrd.
    destruct (readable env S0) eqn:R0; simpl for_each.
    + destruct (read env S0 8192) as [e0 | c0] eqn:H0.
      * rewrite (read_one_raise env S0 b e0 H0). simpl.
        exists e0. eexists. split; [reflexivity |].
        repeat split; auto; intros; discriminate.
      * destruct (read_one_ok env S0 b c0 H0) as (b1 & -> & _).
        simpl. rewrite (read_one_raise env S1 b1 e He). simpl.
        exists e. eexists. split; [reflexivity |].
        repeat split; auto; intros; discriminate.
    + rewrite (read_one_raise env S1 b e He). simpl.
      exists e. eexists. split; [reflexivity |].
      repeat split; auto; intros; discriminate.
Qed.

End RelayMore.

(** ** The ports of the relay *)

Section PortFacts.
Import Snooper.
Context {byte : Type}.
Local Abbreviation event := (Snooper.event byte).

Lemma doit_closes_nothing (envs : list (Env byte)) :
  Forall (fun ev : event => is_close ev = false) (snd (doit envs)).
Proof.
  assert (H : meets (fun _ : event => True) (fun ev => is_close ev = false)
                    (fun _ : Buffers byte => True) (run envs empty)).
  { apply meets_for_each; [| exact I]. intros env b0 _.
    apply iteration_meets; [reflexivity | | | exact I].
    - intros s b1 _ _. split; [| auto]. unfold read_one, do_read.
      destruct (read env s 8192) as [e | c]; simpl; [repeat constructor |].
      destruct (length c =? 0)%nat; [| destruct (endpoint_eqb s S0)];
        simpl; repeat constructor.
    - intros s b1 _ _. split; [| auto]. unfold write_one, do_write.
      destruct (endpoint_eqb s S0);
        [destruct (write env s (buffer0 b1)) | destruct (write env s (buffer1 b1))];
        simpl; repeat constructor. }
  assert (Hrun : Forall (fun ev : event => is_close ev = false) (snd (run envs empty)))
    by (apply H, Forall_forall; auto).
  unfold doit. destruct (run envs empty) as [[b | e | c |] t]; simpl in *;
    try exact Hrun.
  rewrite app_nil_r. exact Hrun.
Qed.

(** X5.  When [runit] raises, its trace ends with the closing of exactly
    the ports it had got open, the one opened last closed first, and no
    port was closed before that. *)
Theorem runit_releases_ports (w : World byte) (e : exn) :
  fst (runit w) = Raise e ->
  exists pre,
    snd (runit w) = pre ++ map Close (rev (opened w)) /\
    Forall (fun ev : event => is_close ev = false) pre.
Proof.
  pose proof (doit_closes_nothing (passes w)) as Hd.
  unfold runit, with_serial, opened.
  destruct (open_res w S0) as [e0 |]; simpl.
  - intros _. exists [Open S0; Failed S0 e0]. split; [reflexivity | repeat constructor].
  - destruct (open_res w S1) as [e1 |]; simpl.
    + intros _. exists [Open S0; Open S1; Failed S1 e1].
      split; [reflexivity | repeat constructor].
    + destruct (doit (passes w)) as [[[] | e' | c |] t]; simpl in *;
        intros Hr; try discriminate.
      exists (Open S0 :: Open S1 :: t). split.
      * rewrite <- app_assoc. reflexivity.
      * repeat constructor. exact Hd.
Qed.

(** X6.  As long as [runit] is running, both ports are open and neither
    has been closed. *)
Theorem running_relay_holds_ports (w : World byte) :
  fst (runit w) = Running ->
  opened w = [S0; S1] /\
  (exists tr, snd (runit w) = Open S0 :: Open S1 :: tr) /\
  Forall (fun ev : event => is_close ev = false) (snd (runit w)).
Proof.
  pose proof (doit_closes_nothing (passes w)) as Hd.
  unfold runit, with_serial, opened.
  destruct (open_res w S0) as [e0 |]; simpl; [discriminate |].
  destruct (open_res w S1) as [e1 |]; simpl; [discriminate |].
  destruct (doit (passes w)) as [[[] | e' | c |] t]; simpl in *;
    intros Hr; try discriminate.
  split; [reflexivity | split; [eexists; reflexivity |]].
  repeat constructor. exact Hd.
Qed.

End PortFacts.

(** ** More on the command line and the start of the threads *)

Section MainMore.
Import Main.
Variable int_of_string : string -> option Z.
Variable path_exists : string -> bool.
Variable ttyname : string -> string.
Variable open_log : string -> option exn.

Local Abbreviation parse_args := (Main.parse_args int_of_string).
Local Abbreviation setup := (Main.setup path_exists ttyname).
Local Abbreviation mkLogger := (Main.mkLogger open_log).
Local Abbreviation main := (Main.main int_of_string path_exists ttyname open_log).
Local Abbreviation exists_ := (Main.exists_ path_exists).

Lemma setup_cases (args : Args) :
  (exists msg, setup args = (Exit 2, [Usage msg])) \/
  (exists sims p0 p1,
     setup args = (Ok (sims ++ [Snooper p0 p1 (baud args)]),
                   map (fun t => Create (name t)) (sims ++ [Snooper p0 p1 (baud args)])) /\
     forallb is_simulation sims = true /\
     (test args = false ->
        sims = [] /\ p0 = port0 args /\ p1 = port1 args /\
        exists_ (port0 args) = true /\ exists_ (port1 args) = true) /\
     (test args = true ->
        sims = [Simulation "0" (delay0 args); Simulation "1" (delay1 args)] /\
        p0 = Str (ttyname "0") /\ p1 = Str (ttyname "1") /\
        port0 args = PyNone /\ port1 args = PyNone)).
Proof.
  unfold Main.setup. destruct (test args) eqn:Ht; simpl.
  - destruct (py_eqb (port0 args) PyNone) eqn:E0; simpl;
      [| left; eexists; reflexivity].
    destruct (py_eqb (port1 args) PyNone) eqn:E1; simpl;
      [| left; eexists; reflexivity].
    right. exists [Simulation "0" (delay0 args); Simulation "1" (delay1 args)].
    exists (Str (ttyname "0")), (Str (ttyname "1")).
    split; [reflexivity | split; [reflexivity | split; [discriminate |]]].
    intros _. destruct (port0 args), (port1 args); try discriminate. auto.
  - destruct (py_eqb (port0 args) PyNone) eqn:E0; simpl;
      [left; eexists; reflexivity |].
    destruct (py_eqb (port1 args) PyNone) eqn:E1; simpl;
      [left; eexists; reflexivity |].
    destruct (Main.exists_ path_exists (port0 args)) eqn:X0; simpl;
      [| left; eexists; reflexivity].
    destruct (Main.exists_ path_exists (port1 args)) eqn:X1; simpl;
      [| left; eexists; reflexivity].
    right. exists [], (port0 args), (port1 args).
    split; [reflexivity | split; [reflexivity | split; [auto | discriminate]]].
Qed.

Lemma main_cases (cl : CmdLine) (posted : list exn) :
  (exists msg, main cl posted = (Exit 2, [Usage msg])) \/
  (cl_help cl = true /\ main cl posted = (Exit 0, [PrintHelp])) \/
  (exists args f e,
     parse_args cl = (Ok args, []) /\
     cl_logfile cl = Some f /\ open_log f = Some e /\
     mkLogger args None = (Raise e, []) /\
     main cl posted = (Raise e, [])) \/
  (exists args logger threads,
     parse_args cl = (Ok args, []) /\
     mkLogger args None = (Ok logger, []) /\
     setup args = (Ok threads, map (fun t => Create (name t)) threads) /\
     main cl posted
     = (fst (reraise_first posted),
        map (fun t => Create (name t)) threads ++
        map (fun t => Start (name t)) threads)).
Proof.
  unfold Main.main, Main.parse_args.
  destruct (parse_outcome int_of_string cl (defaults int_of_string))
    as [[args Hp] | [[Hp Hh] | [msg Hp]]].
  - destruct (parse_args_ok int_of_string cl args [] Hp)
      as (_ & _ & _ & _ & _ & _ & _ & Hlf & _).
    rewrite Hp. simpl.
    destruct (mkLogger_cases open_log args (cl_logfile cl) Hlf)
      as [[logger Hl] | (n & e & Hn & Ho & Hl)]; rewrite Hl; simpl.
    + destruct (setup_cases args) as [[msg Hs] | (sims & p0 & p1 & Hs & _)];
        rewrite Hs; simpl.
      * left. eauto.
      * right. right. right.
        exists args, logger, (sims ++ [Snooper p0 p1 (baud args)]).
        split; [reflexivity | split; [exact Hl | split; [exact Hs |]]].
        rewrite start_all_ok. simpl. destruct posted; simpl; now rewrite app_nil_r.
    + right. right. left. exists args, n, e. auto.
  - right. left. rewrite Hp. auto.
  - left. rewrite Hp. simpl. eauto.
Qed.

(** X7.  Whenever the main thread ends by [SystemExit], it is either
    with status 0 after printing the help, which takes a [-h] on the
    command line, or with status 2 after one usage message; either way no
    thread has been built or started. *)
Theorem rejection_creates_nothing (cl : CmdLine) (posted : list exn) (c : Z) :
  fst (main cl posted) = Exit c ->
  (c = 0 /\ cl_help cl = true /\ snd (main cl posted) = [PrintHelp]) \/
  (c = 2 /\ exists msg, snd (main cl posted) = [Usage msg]).
Proof.
  destruct (main_cases cl posted)
    as [[msg H] | [[Hh H] | [(args & f & e & _ & _ & _ & _ & H)
                            | (args & logger & threads & _ & _ & _ & H)]]];
    rewrite H; simpl.
  - intros [= <-]. right. split; [reflexivity | eauto].
  - intros [= <-]. left. auto.
  - discriminate.
  - destruct posted; discriminate.
Qed.

(** X8.  For a command line that passes, the main thread first builds
    the threads and then starts every one of them, in the order they were
    built; the relay is built and started last, after the generators if
    there are any. *)
Theorem threads_start_in_creation_order (cl : CmdLine) (posted : list exn)
        (args : Args) (logger : Logger) (threads : list Thread)
        (t1 t0 t2 : list event) :
  parse_args cl = (Ok args, t1) ->
  mkLogger args None = (Ok logger, t0) ->
  setup args = (Ok threads, t2) ->
  snd (main cl posted)
  = map (fun t => Create (name t)) threads ++ map (fun t => Start (name t)) threads /\
  exists sims p0 p1,
    threads = sims ++ [Snooper p0 p1 (baud args)] /\
    forallb is_simulation sims = true.
Proof.
  intros Hp Hl Hs.
  destruct (parse_args_ok int_of_string cl args t1 Hp) as (-> & _).
  destruct (setup_cases args) as [[msg Hx] | (sims & p0 & p1 & Hx & Hsim & _)];
    rewrite Hs in Hx; [discriminate |].
  inversion Hx; subst threads t2. split; [| exists sims, p0, p1; auto].
  assert (Ht0 : t0 = []).
  { unfold Main.mkLogger in Hl. destruct (logfile args) as [z | f |]; simpl in Hl;
      try discriminate; [| inversion Hl; reflexivity].
    destruct (open_log f); simpl in Hl; [discriminate | inversion Hl; reflexivity]. }
  subst t0. unfold Main.main. rewrite Hp. simpl. rewrite Hl. simpl. rewrite Hs. simpl.
  rewrite start_all_ok. simpl. destruct posted; simpl; now rewrite app_nil_r.
Qed.

(** X9.  Every relay that the main thread builds has the baud rate 9600:
    a command line that gives [--baud] never gets as far as building it. *)
Theorem relay_baud_is_always_9600 (cl : CmdLine) (args : Args)
        (threads : list Thread) (t1 t2 : list event) :
  parse_args cl = (Ok args, t1) ->
  setup args = (Ok threads, t2) ->
  cl_baud cl = None /\
  forall p0 p1 b, In (Snooper p0 p1 b) threads -> b = Int 9600.
Proof.
  intros Hp Hs.
  destruct (parse_args_ok int_of_string cl args t1 Hp) as (_ & _ & Hnone & Hb & _).
  split; [exact Hnone |].
  destruct (setup_cases args) as [[msg Hx] | (sims & q0 & q1 & Hx & Hsim & _)];
    rewrite Hs in Hx; [discriminate |].
  inversion Hx; subst threads. intros p0 p1 b Hin.
  apply in_app_or in Hin. destruct Hin as [Hin | [Heq | []]].
  - rewrite forallb_forall in Hsim. specialize (Hsim _ Hin). discriminate.
  - inversion Heq; subst. exact Hb.
Qed.

(** X10.  Without [--test] the relay is built exactly when both ports
    are given and both paths exist; it is then the only thread and gets
    the two paths as they were given.  Otherwise the command line is
    refused, and a missing [--port0] is what is reported first. *)
Theorem relay_needs_both_device_paths (args : Args) :
  test args = false ->
  (exists_ (port0 args) && exists_ (port1 args) = true ->
     setup args = (Ok [Snooper (port0 args) (port1 args) (baud args)],
                   [Create "Snooper"])) /\
  (exists_ (port0 args) && exists_ (port1 args) = false ->
     exists msg, setup args = (Exit 2, [Usage msg])) /\
  (port0 args = PyNone ->
     setup args = (Exit 2, [Usage "--port0 is required unless --test is given"])).
Proof.
  intros Ht. unfold Main.setup. rewrite Ht. simpl. split; [| split].
  - intros H. apply andb_true_iff in H. destruct H as [H0 H1].
    destruct (port0 args) as [z | p0 |] eqn:P0; try discriminate.
    destruct (port1 args) as [z | p1 |] eqn:P1; try discriminate.
    simpl in *. rewrite H0, H1. reflexivity.
  - intros H.
    destruct (py_eqb (port0 args) PyNone); simpl; [eexists; reflexivity |].
    destruct (py_eqb (port1 args) PyNone); simpl; [eexists; reflexivity |].
    destruct (Main.exists_ path_exists (port0 args)); simpl; [| eexists; reflexivity].
    destruct (Main.exists_ path_exists (port1 args)); simpl; [| eexists; reflexivity].
    discriminate.
  - intros ->. reflexivity.
Qed.

(** X11.  With [--test] the relay is wired to the ptys of the two
    generators, which are built before it with keys "0" and "1" and with
    the delays of the command line: the number read from the word given,
    or 11 and 17 when none is given. *)
Theorem test_mode_wires_relay_to_generators (cl : CmdLine) (args : Args)
        (threads : list Thread) (t1 t2 : list event) :
  cl_test cl = true ->
  parse_args cl = (Ok args, t1) ->
  setup args = (Ok threads, t2) ->
  exists d0 d1,
    threads = [Simulation "0" (Int d0); Simulation "1" (Int d1);
               Snooper (Str (ttyname "0")) (Str (ttyname "1")) (Int 9600)] /\
    (cl_delay0 cl = None -> d0 = 11) /\
    (cl_delay1 cl = None -> d1 = 17) /\
    (forall s, cl_delay0 cl = Some s -> int_of_string s = Some d0) /\
    (forall s, cl_delay1 cl = Some s -> int_of_string s = Some d1).
Proof.
  intros Ht Hp Hs.
  destruct (parse_args_ok int_of_string cl args t1 Hp)
    as (_ & _ & _ & Hb & Htest & _ & _ & _ & Hd0 & Hd1).
  rewrite Ht in Htest.
  destruct (setup_cases args) as [[msg Hx] | (sims & q0 & q1 & Hx & _ & _ & Hon)];
    rewrite Hs in Hx; [discriminate |].
  inversion Hx; subst threads.
  destruct (Hon Htest) as (-> & -> & -> & _).
  assert (G0 : exists d0, delay0 args = Int d0 /\ (cl_delay0 cl = None -> d0 = 11) /\
                          (forall s, cl_delay0 cl = Some s -> int_of_string s = Some d0)).
  { destruct (cl_delay0 cl) as [s |].
    - destruct Hd0 as (z & Hz & Hd). exists z.
      split; [exact Hd | split; [discriminate | congruence]].
    - exists 11. split; [exact Hd0 | split; [reflexivity | discriminate]]. }
  assert (G1 : exists d1, delay1 args = Int d1 /\ (cl_delay1 cl = None -> d1 = 17) /\
                          (forall s, cl_delay1 cl = Some s -> int_of_string s = Some d1)).
  { destruct (cl_delay1 cl) as [s |].
    - destruct Hd1 as (z & Hz & Hd). exists z.
      split; [exact Hd | split; [discriminate | congruence]].
    - exists 17. split; [exact Hd1 | split; [reflexivity | discriminate]]. }
  destruct G0 as (d0 & E0 & A0 & B0). destruct G1 as (d1 & E1 & A1 & B1).
  exists d0, d1. rewrite E0, E1, Hb. simpl. auto.
Qed.


(** X17.  When the command line goes through the parser with a
    [--logfile] that cannot be opened, the program ends by the exception
    of [mkLogger], with status 1 and nothing printed, before the ports
    are looked at: no usage message, no thread built or started, whatever
    else the command line says. *)
Theorem logger_failure_precedes_validation (cl : CmdLine) (posted : list exn)
        (args : Args) (t1 : list event) (f : string) (e : exn) :
  parse_args cl = (Ok args, t1) ->
  cl_logfile cl = Some f ->
  open_log f = Some e ->
  main cl posted = (Raise e, []) /\
  exit_status (fst (main cl posted)) = Some 1.
Proof.
  intros Hp Hf Ho.
  destruct (parse_args_ok int_of_string cl args t1 Hp)
    as (-> & _ & _ & _ & _ & _ & _ & Hlf & _).
  rewrite Hf in Hlf.
  assert (H : main cl posted = (Raise e, [])).
  { unfold Main.main. rewrite Hp. simpl. unfold Main.mkLogger. rewrite Hlf, Ho.
    reflexivity. }
  rewrite H. auto.
Qed.

End MainMore.

(** ** More on the simulated endpoint *)

Section SimulationMore.
Import Simulation.










End SimulationMore.

(** ** The error queue *)

Section QueueFacts.
Context {E : Type}.

Lemma posted_keeps_head (outcomes : list (IO E unit)) :
  forall err,
    hd_error (fold_left (fun q r => MyThread.run r q) outcomes err)
    = match err with
      | e :: _ => Some e
      | [] => first_error outcomes
      end.
Proof.
  induction outcomes as [| r outcomes IH]; intros err; simpl.
  - destruct err; reflexivity.
  - rewrite IH. destruct r as [[[] | e | c |] t]; simpl; try reflexivity.
    destruct err; reflexivity.
Qed.

(** X15.  Whatever threads fail and in whatever number, the main thread
    raises the error of the one that failed first; the errors put on the
    queue after it are never looked at.  While no thread has failed the
    main thread keeps waiting. *)
Theorem first_error_wins (outcomes : list (IO E unit)) :
  Main.reraise_first (posted_by outcomes)
  = match first_error outcomes with
    | Some e => (Raise e, [])
    | None => (Running, [])
    end.
Proof.
  pose proof (posted_keeps_head outcomes []) as H. simpl in H.
  unfold posted_by. destruct (fold_left _ outcomes []) as [| e q];
    simpl in H; rewrite <- H; reflexivity.
Qed.

End QueueFacts.

(** ** Progress of the relay *)

Section RelayProgress.
Import Snooper.
Context {byte : Type}.

(** X16.  A pass in which a port with bytes pending is writable and
    takes at least one byte, while nothing arrives for it, leaves its
    buffer strictly shorter, by exactly the number of bytes the port
    took. *)
Theorem served_buffer_shrinks (env : Env byte) s (b : Buffers byte) :
  healthy env ->
  serves s env ->
  buf s b <> [] ->
  exists b' tr,
    iteration env b = (Ok b', tr) /\
    (length (buf s b') < length (buf s b))%nat /\
    (length (bytes_written s tr) + length (buf s b') = length (buf s b))%nat.
Proof.
  intros Hh Hs Hne.
  destruct (iteration_serves env s b Hh Hs) as (b' & tr & H & Hc & Hq & Hl).
  exists b', tr. split; [exact H |].
  assert (Hpos : (0 < length (buf s b))%nat)
    by (destruct (buf s b); [congruence | simpl; lia]).
  split; [lia |].
  specialize (Hc s). rewrite Hq, app_nil_r in Hc.
  rewrite Hc, length_app. reflexivity.
Qed.

End RelayProgress.

(** ** The further properties at sample inputs *)

Lemma stuck_healthy : Snooper.healthy Scenario.stuck.
Proof.
  split.
  - intros s size. eexists. reflexivity.
  - intros s d. eexists. split; [reflexivity | lia].
Defined.

Lemma duplex_healthy : Snooper.healthy Scenario.duplex.
Proof.
  split.
  - intros s size. eexists. reflexivity.
  - intros s d. eexists. split; [reflexivity | lia].
Defined.

Lemma burst_healthy : Snooper.healthy Sample.burst.
Proof.
  split.
  - intros s size. eexists. reflexivity.
  - intros s d. eexists. split; [reflexivity | lia].
Defined.

Lemma unwritable_target_accumulates_witness :
  Forall Snooper.healthy [Scenario.stuck; Scenario.stuck] /\
  Forall (fun env => Snooper.writable env S1 = false) [Scenario.stuck; Scenario.stuck] /\
  exists b tr,
    Snooper.run [Scenario.stuck; Scenario.stuck] Snooper.empty = (Ok b, tr) /\
    Snooper.offered S1 tr = [] /\
    Snooper.bytes_written S1 tr = [] /\
    Snooper.buf S1 b = Snooper.bytes_read (other S1) tr.
Proof.
  assert (Hh : Forall Snooper.healthy [Scenario.stuck; Scenario.stuck])
    by (repeat constructor; apply stuck_healthy).
  assert (Hw : Forall (fun env => Snooper.writable env S1 = false)
                      [Scenario.stuck; Scenario.stuck])
    by (repeat constructor).
  split; [exact Hh | split; [exact Hw |]].
  exact (unwritable_target_accumulates [Scenario.stuck; Scenario.stuck] S1 Hh Hw).
Defined.

Lemma write_interest_is_decided_before_reads_witness :
  Snooper.healthy Scenario.duplex /\
  exists b' tr,
    Snooper.iteration Scenario.duplex Sample.pending
    = (Ok b', Snooper.Select [S0; S1] (Snooper.write_interest Sample.pending) :: tr) /\
    (forall t, Snooper.buf t Sample.pending <> [] ->
               Snooper.writable Scenario.duplex t = true ->
               Snooper.offered t tr
               = [Snooper.buf t Sample.pending ++ Snooper.bytes_read (other t) tr]) /\
    (forall t, Snooper.buf t Sample.pending = [] ->
               Snooper.offered t tr = [] /\ Snooper.bytes_written t tr = [] /\
               Snooper.buf t b' = Snooper.bytes_read (other t) tr).
Proof.
  split; [exact duplex_healthy |].
  exact (write_interest_is_decided_before_reads Scenario.duplex Sample.pending
           duplex_healthy).
Defined.

Lemma duplex_honours_size : honours_size Scenario.duplex.
Proof.
  intros s size c Hsz H. simpl in H. inversion H; subst c.
  rewrite length_firstn. lia.
Defined.

Lemma buffer_growth_per_pass_witness :
  Snooper.healthy Scenario.duplex /\
  honours_size Scenario.duplex /\
  exists b' tr,
    Snooper.iteration Scenario.duplex Sample.pending = (Ok b', tr) /\
    forall t, Z.of_nat (length (Snooper.buf t b'))
              <= Z.of_nat (length (Snooper.buf t Sample.pending)) + 8192.
Proof.
  split; [exact duplex_healthy | split; [exact duplex_honours_size |]].
  exact (buffer_growth_per_pass Scenario.duplex Sample.pending
           duplex_healthy duplex_honours_size).
Defined.

Lemma read_failure_preempts_writes_witness :
  Snooper.readable Sample.broken S0 = true /\
  Snooper.read Sample.broken S0 8192 = inl (SerialException "device disconnected") /\
  exists e' tr,
    Snooper.iteration Sample.broken Sample.pending = (Raise e', tr) /\
    (forall t, Snooper.offered t tr = []) /\
    (forall t, Snooper.bytes_written t tr = []) /\
    (S0 = S0 -> e' = SerialException "device disconnected").
Proof.
  split; [reflexivity | split; [reflexivity |]].
  exact (read_failure_preempts_writes Sample.broken Sample.pending S0
           (SerialException "device disconnected") eq_refl eq_refl).
Defined.

Lemma runit_releases_ports_witness :
  fst (Snooper.runit Scenario.breaks) = Raise (SerialException "device disconnected") /\
  exists pre,
    snd (Snooper.runit Scenario.breaks)
    = pre ++ map Snooper.Close (rev (opened Scenario.breaks)) /\
    Forall (fun ev => Snooper.is_close ev = false) pre.
Proof.
  split; [reflexivity |].
  exact (runit_releases_ports Scenario.breaks
           (SerialException "device disconnected") eq_refl).
Defined.

Lemma running_relay_holds_ports_witness :
  fst (Snooper.runit Scenario.steady) = Running /\
  opened Scenario.steady = [S0; S1] /\
  (exists tr, snd (Snooper.runit Scenario.steady)
              = Snooper.Open S0 :: Snooper.Open S1 :: tr) /\
  Forall (fun ev => Snooper.is_close ev = false) (snd (Snooper.runit Scenario.steady)).
Proof.
  split; [reflexivity |].
  exact (running_relay_holds_ports Scenario.steady eq_refl).
Defined.

Lemma served_buffer_shrinks_witness :
  Snooper.healthy Sample.burst /\
  Snooper.serves S0 Sample.burst /\
  Snooper.buf S0 Scenario.pending0 <> [] /\
  exists b' tr,
    Snooper.iteration Sample.burst Scenario.pending0 = (Ok b', tr) /\
    (length (Snooper.buf S0 b') < length (Snooper.buf S0 Scenario.pending0))%nat /\
    (length (Snooper.bytes_written S0 tr) + length (Snooper.buf S0 b')
     = length (Snooper.buf S0 Scenario.pending0))%nat.
Proof.
  assert (Hs : Snooper.serves S0 Sample.burst).
  { split; [reflexivity | split; [reflexivity |]].
    intros d Hd. eexists. split; [reflexivity |].
    destruct d; [congruence | simpl length; lia]. }
  assert (Hne : Snooper.buf S0 Scenario.pending0 <> []) by (simpl; discriminate).
  split; [exact burst_healthy | split; [exact Hs | split; [exact Hne |]]].
  exact (served_buffer_shrinks Sample.burst S0 Scenario.pending0 burst_healthy Hs Hne).
Defined.

Lemma rejection_creates_nothing_witness :
  fst (Main.main (fun _ => None) (fun _ => true) (String.append "/dev/pts/")
                 Sample.any_log Sample.test_port_help []) = Exit 0 /\
  ((0 = 0 /\ Main.cl_help Sample.test_port_help = true /\
    snd (Main.main (fun _ => None) (fun _ => true) (String.append "/dev/pts/")
                   Sample.any_log Sample.test_port_help []) = [Main.PrintHelp]) \/
   (0 = 2 /\ exists msg,
      snd (Main.main (fun _ => None) (fun _ => true) (String.append "/dev/pts/")
                     Sample.any_log Sample.test_port_help []) = [Main.Usage msg])).
Proof.
  split; [reflexivity |].
  exact (rejection_creates_nothing (fun _ => None) (fun _ => true)
           (String.append "/dev/pts/") Sample.any_log Sample.test_port_help [] 0
           eq_refl).
Defined.

Lemma threads_start_in_creation_order_witness :
  Main.parse_args Scenario.reads_three Scenario.test_only
  = (Ok Scenario.test_only_args, []) /\
  Main.mkLogger Sample.any_log Scenario.test_only_args None
  = (Ok {| Main.handler := Main.StreamHandler; Main.handler_level := Main.INFO;
           Main.handler_fmt :=
             "%(asctime)s: %(threadName)s:%(levelname)s - %(message)s" |}, []) /\
  Main.setup (fun _ => true) (String.append "/dev/pts/") Scenario.test_only_args
  = (Ok [Main.Simulation "0" (Main.Int 3); Main.Simulation "1" (Main.Int 17);
         Main.Snooper (Main.Str "/dev/pts/0") (Main.Str "/dev/pts/1") (Main.Int 9600)],
     [Main.Create "Sim0"; Main.Create "Sim1"; Main.Create "Snooper"]) /\
  snd (Main.main Scenario.reads_three (fun _ => true) (String.append "/dev/pts/")
                 Sample.any_log Scenario.test_only [])
  = [Main.Create "Sim0"; Main.Create "Sim1"; Main.Create "Snooper";
     Main.Start "Sim0"; Main.Start "Sim1"; Main.Start "Snooper"].
Proof.
  split; [reflexivity | split; [reflexivity | split; [reflexivity |]]].
  exact (proj1 (threads_start_in_creation_order Scenario.reads_three (fun _ => true)
                  (String.append "/dev/pts/") Sample.any_log Scenario.test_only []
                  Scenario.test_only_args _ _ [] [] _ eq_refl eq_refl eq_refl)).
Defined.

Lemma relay_baud_is_always_9600_witness :
  Main.parse_args (fun _ => None) Scenario.two_ports
  = (Ok Scenario.two_ports_args, []) /\
  Main.setup (fun _ => true) (String.append "/dev/pts/") Scenario.two_ports_args
  = (Ok [Main.Snooper (Main.Str "/dev/ttyUSB0") (Main.Str "/dev/ttyUSB1") (Main.Int 9600)],
     [Main.Create "Snooper"]) /\
  Main.cl_baud Scenario.two_ports = None /\
  forall p0 p1 b,
    In (Main.Snooper p0 p1 b)
       [Main.Snooper (Main.Str "/dev/ttyUSB0") (Main.Str "/dev/ttyUSB1") (Main.Int 9600)] ->
    b = Main.Int 9600.
Proof.
  split; [reflexivity | split; [reflexivity |]].
  exact (relay_baud_is_always_9600 (fun _ => None) (fun _ => true)
           (String.append "/dev/pts/") Scenario.two_ports
           Scenario.two_ports_args _ [] _ eq_refl eq_refl).
Defined.

Lemma relay_needs_both_device_paths_witness :
  Main.test Scenario.two_ports_args = false /\
  (Main.exists_ (fun _ => true) (Main.port0 Scenario.two_ports_args)
   && Main.exists_ (fun _ => true) (Main.port1 Scenario.two_ports_args) = true ->
   Main.setup (fun _ => true) (String.append "/dev/pts/") Scenario.two_ports_args
   = (Ok [Main.Snooper (Main.port0 Scenario.two_ports_args)
                       (Main.port1 Scenario.two_ports_args)
                       (Main.baud Scenario.two_ports_args)],
      [Main.Create "Snooper"])) /\
  (Main.exists_ (fun _ => true) (Main.port0 Scenario.two_ports_args)
   && Main.exists_ (fun _ => true) (Main.port1 Scenario.two_ports_args) = false ->
   exists msg,
     Main.setup (fun _ => true) (String.append "/dev/pts/") Scenario.two_ports_args
     = (Exit 2, [Main.Usage msg])) /\
  (Main.port0 Scenario.two_ports_args = Main.PyNone ->
   Main.setup (fun _ => true) (String.append "/dev/pts/") Scenario.two_ports_args
   = (Exit 2, [Main.Usage "--port0 is required unless --test is given"])).
Proof.
  split; [reflexivity |].
  exact (relay_needs_both_device_paths (fun _ => true) (String.append "/dev/pts/")
           Scenario.two_ports_args eq_refl).
Defined.

Lemma test_mode_wires_relay_to_generators_witness :
  Main.cl_test Scenario.test_only = true /\
  Main.parse_args Scenario.reads_three Scenario.test_only
  = (Ok Scenario.test_only_args, []) /\
  Main.setup (fun _ => true) (String.append "/dev/pts/") Scenario.test_only_args
  = (Ok [Main.Simulation "0" (Main.Int 3); Main.Simulation "1" (Main.Int 17);
         Main.Snooper (Main.Str "/dev/pts/0") (Main.Str "/dev/pts/1") (Main.Int 9600)],
     [Main.Create "Sim0"; Main.Create "Sim1"; Main.Create "Snooper"]) /\
  exists d0 d1,
    [Main.Simulation "0" (Main.Int 3); Main.Simulation "1" (Main.Int 17);
     Main.Snooper (Main.Str "/dev/pts/0") (Main.Str "/dev/pts/1") (Main.Int 9600)]
    = [Main.Simulation "0" (Main.Int d0); Main.Simulation "1" (Main.Int d1);
       Main.Snooper (Main.Str (String.append "/dev/pts/" "0"))
                    (Main.Str (String.append "/dev/pts/" "1")) (Main.Int 9600)] /\
    (Main.cl_delay0 Scenario.test_only = None -> d0 = 11) /\
    (Main.cl_delay1 Scenario.test_only = None -> d1 = 17) /\
    (forall s, Main.cl_delay0 Scenario.test_only = Some s ->
               Scenario.reads_three s = Some d0) /\
    (forall s, Main.cl_delay1 Scenario.test_only = Some s ->
               Scenario.reads_three s = Some d1).
Proof.
  split; [reflexivity | split; [reflexivity | split; [reflexivity |]]].
  exact (test_mode_wires_relay_to_generators Scenario.reads_three (fun _ => true)
           (String.append "/dev/pts/") Scenario.test_only
           Scenario.test_only_args _ [] _ eq_refl eq_refl eq_refl).
Defined.



Lemma traffic_past_deadline_ends_generator_witness :
  Forall (fun env => Simulation.ready env = true /\
                     Simulation.now_select env <= 0 + 1000)
         [Sample.busy; Sample.busy_still] /\
  0 + 1000 < Simulation.now_select Sample.late /\
  Simulation.runit "0" 1000 0
    ([Sample.busy; Sample.busy_still] ++ Sample.late :: [Sample.calm])
  = (Raise (ValueError "timeout must be non-negative"),
     flat_map (fun env => [Simulation.Wait (0 + 1000 - Simulation.now_select env);
                           Simulation.Recv (Simulation.incoming env)])
              [Sample.busy; Sample.busy_still]
     ++ [Simulation.Wait (0 + 1000 - Simulation.now_select Sample.late)]) /\
  Simulation.productions
    (snd (Simulation.runit "0" 1000 0
            ([Sample.busy; Sample.busy_still] ++ Sample.late :: [Sample.calm])))
  = 0%nat.
Proof.
  assert (Hr : Forall (fun env => Simulation.ready env = true /\
                                  Simulation.now_select env <= 0 + 1000)
                      [Sample.busy; Sample.busy_still])
    by (repeat constructor; simpl; lia).
  assert (Hl : 0 + 1000 < Simulation.now_select Sample.late) by (simpl; lia).
  split; [exact Hr | split; [exact Hl |]].
  exact (traffic_past_deadline_ends_generator "0" 1000 0
           [Sample.busy; Sample.busy_still] Sample.late [Sample.calm] Hr Hl).
Defined.

Lemma logger_failure_precedes_validation_witness :
  Main.parse_args (fun _ => None) Scenario.two_ports_logfile
  = (Ok Scenario.two_ports_logfile_args, []) /\
  Main.cl_logfile Scenario.two_ports_logfile = Some "/nowhere/relay.log"%string /\
  Sample.no_log "/nowhere/relay.log" = Some (OSError "No such file or directory") /\
  Main.main (fun _ => None) (fun _ => true) (String.append "/dev/pts/") Sample.no_log
            Scenario.two_ports_logfile []
  = (Raise (OSError "No such file or directory"), []) /\
  Main.exit_status
    (fst (Main.main (fun _ => None) (fun _ => true) (String.append "/dev/pts/")
                    Sample.no_log Scenario.two_ports_logfile [])) = Some 1.
Proof.
  split; [reflexivity | split; [reflexivity | split; [reflexivity |]]].
  exact (logger_failure_precedes_validation (fun _ => None) (fun _ => true)
           (String.append "/dev/pts/") Sample.no_log Scenario.two_ports_logfile []
           Scenario.two_ports_logfile_args [] "/nowhere/relay.log"
           (OSError "No such file or directory") eq_refl eq_refl eq_refl).
Defined.
